(** * formalmath.metamath.core : the [FormalSystem] proof checker

    A shallow embedding of [src/formalmath/metamath/core.py] and the
    properties of its specification.

    Modelling conventions.
    - A Python [str] is a [string]; a character stands for a code point
      below 256, and [isspace] is Python's [str.isspace] on that range.
    - An insertion-ordered Python [dict] with string keys whose order is
      observable (the [t], [h], [d] blocks of a proposition, the axioms and
      theorems of a system) is an association list [dict V]; the
      dictionaries that are only looked up ([namespace], [subs]) are
      [gmap]s, and the [set]s of step 6 and of the distinct check are
      [gset]s.
    - A proposition is a record: the key-set test of step 1 and the
      [isinstance] assertions of [_check_] hold by typing.
    - A Python exception is a value of [exn]: the explicit [raise] and
      [assert] statements are classified by the error kinds of the
      specification ([Raised k]); the exceptions of the Python runtime that
      the code does not raise itself are [IndexError], [KeyError] and
      [UnpackError].
    - Methods that only read [self] are functions of the system; the
      methods that mutate it run in the monad [M], which returns the state
      reached together with the result or the exception. *)

From Stdlib Require Import Ascii String.
From stdpp Require Import gmap strings list fin_maps.

Open Scope string_scope.
Open Scope list_scope.
Open Scope nat_scope.

(** ** Python strings *)

Module PyStr.

(** [str.isspace] for one character (code points below 256). *)
Definition isspace (c : ascii) : bool :=
  let n := nat_of_ascii c in
  (((9 <=? n) && (n <=? 13)) || ((28 <=? n) && (n <=? 32))
   || (n =? 133) || (n =? 160))%nat.

Definition flush (tok : string) : list string :=
  match tok with
  | EmptyString => []
  | _ => [tok]
  end.

(** [split_acc tok s]: the tokens of [s], [tok] being the token read so far. *)
Fixpoint split_acc (tok : string) (s : string) : list string :=
  match s with
  | EmptyString => flush tok
  | String c s' =>
      if isspace c then flush tok ++ split_acc EmptyString s'
      else split_acc (tok +:+ String c EmptyString) s'
  end.

(** [s.split()]: maximal runs of non-whitespace characters. *)
Definition split (s : string) : list string := split_acc EmptyString s.

(** [sep.join(l)]. *)
Definition join (sep : string) (l : list string) : string :=
  String.concat sep l.

End PyStr.

Import PyStr.

(** ** Exceptions *)

(** The error kinds of the specification; each explicit [raise] or [assert]
    of the source is given the kind whose condition it tests. *)
Inductive error_kind :=
| DuplicateLabel
| MalformedField
| UnknownToken
| DistinctShape
| DeadVariable
| UnknownStep
| StackUnderflow
| TypeMismatch
| DistinctViolation
| HypothesisMismatch
| MalformedProof.

Inductive exn :=
| Raised (k : error_kind)   (* [raise ValueError/AssertionError], [assert] *)
| IndexError                (* [l[i]] out of range *)
| KeyError                  (* [d[k]] with [k] absent *)
| UnpackError.              (* [x, y = l] with [len(l) != 2] *)

#[global] Instance error_kind_eq_dec : EqDecision error_kind.
Proof. solve_decision. Defined.
#[global] Instance exn_eq_dec : EqDecision exn.
Proof. solve_decision. Defined.

(** Computations that return or raise. *)
Definition res (A : Type) : Type := (exn + A)%type.

Notation "'let*' x ':=' m 'in' k" :=
  (match m with inl e => inl e | inr x => k end)
  (at level 10, x pattern, m at level 100, k at level 200,
   only parsing).

(** [assert b] raising kind [k]. *)
Definition assert (b : bool) (k : error_kind) : res unit :=
  if b then inr tt else inl (Raised k).

(** A [for] loop over [l] threading a state, stopped by the first exception. *)
Fixpoint foldM {A S : Type} (f : S → A → res S) (l : list A) (s : S)
  : res S :=
  match l with
  | [] => inr s
  | x :: l' => let* s' := f s x in foldM f l' s'
  end.

(** ** Insertion-ordered dictionaries *)

Definition dict (V : Type) : Type := list (string * V).

Section Dict.
Context {V : Type}.

Definition keys (m : dict V) : list string := m.*1.
Definition values (m : dict V) : list V := m.*2.

(** [k in m] *)
Definition has_key (k : string) (m : dict V) : bool :=
  bool_decide (k ∈ keys m).

(** [m[k]] *)
Fixpoint getitem (k : string) (m : dict V) : res V :=
  match m with
  | [] => inl KeyError
  | (k', v) :: m' => if bool_decide (k = k') then inr v else getitem k m'
  end.

(** [m[k] = v]: in place when [k] is present, appended otherwise. *)
Fixpoint setitem (k : string) (v : V) (m : dict V) : dict V :=
  match m with
  | [] => [(k, v)]
  | (k', v') :: m' =>
      if bool_decide (k = k') then (k', v) :: m'
      else (k', v') :: setitem k v m'
  end.
End Dict.

(** [x in l] for a list of strings. *)
Definition elem (x : string) (l : list string) : bool := bool_decide (x ∈ l).

(** ** Data model *)

(** The proof pointer ['p']: a string or a list of labels. *)
Inductive proof :=
| PStr (s : string)
| PList (l : list string).

Record proposition := Proposition {
  prop_d : dict string;
  prop_t : dict string;
  prop_h : dict string;
  prop_a : string;
  prop_p : option proof   (* ['p' in prop] *)
}.

Inductive kind := Kconstant | Kaxiom | Ktheorem.

Record FormalSystem := System {
  constants : list string;
  axioms : dict proposition;
  theorems : dict proposition;
  namespace : gmap string kind
}.

#[global] Instance proof_eq_dec : EqDecision proof.
Proof. solve_decision. Defined.
#[global] Instance proposition_eq_dec : EqDecision proposition.
Proof. solve_decision. Defined.
#[global] Instance kind_eq_dec : EqDecision kind.
Proof. solve_decision. Defined.

(** [label in self.namespace] *)
Definition in_namespace (self : FormalSystem) (label : string) : bool :=
  bool_decide (is_Some (namespace self !! label)).

(** ** The normalizer [_check_] *)

Section Check.
Variable self : FormalSystem.

(** Step 2, one iteration of [for k in prop['t'].keys()]; the state is
    [(new_names, variables)]. *)
Definition check_t_entry (prop : proposition)
    (st : list string * list string) (k : string)
  : res (list string * list string) :=
  let '(new_names, variables) := st in
  let* _ := assert (negb (in_namespace self k)) DuplicateLabel in
  let* _ := assert (negb (elem k new_names)) DuplicateLabel in
  let new_names := new_names ++ [k] in
  let* v := getitem k (prop_t prop) in
  match split v with
  | [c; x] =>
      let* _ := assert (elem c (constants self)) MalformedField in
      let* _ := assert (negb (in_namespace self x)
                        && negb (elem x new_names)
                        && negb (elem x variables)) DuplicateLabel in
      inr (new_names ++ [x], variables ++ [x])
  | _ => inl (Raised MalformedField)   (* [len(v_split) == 2] *)
  end.

Definition check_t (prop : proposition) : res (list string * list string) :=
  foldM (check_t_entry prop) (keys (prop_t prop)) ([], []).

(** [token in self.constants or token in variables] *)
Definition token_ok (variables : list string) (token : string) : bool :=
  elem token (constants self) || elem token variables.

(** [for token in v.split(): assert ...] *)
Definition check_tokens (variables : list string) (v : string) : res unit :=
  let* _ := foldM (λ _ token, assert (token_ok variables token) UnknownToken)
                  (split v) tt in
  inr tt.

(** Step 3, one iteration of [for k, v in prop['h'].items()]; the state is
    [hyp_names]. *)
Definition check_h_entry (new_names variables : list string)
    (hyp_names : list string) (kv : string * string) : res (list string) :=
  let '(k, v) := kv in
  let* _ := assert (negb (in_namespace self k) && negb (elem k new_names)
                    && negb (elem k hyp_names)) DuplicateLabel in
  let hyp_names := hyp_names ++ [k] in
  let* _ := check_tokens variables v in
  inr hyp_names.

(** Step 5, one iteration of [for k, v in prop['d'].items()]; the state is
    [dist_names]. *)
Definition check_d_entry (new_names variables hyp_names : list string)
    (dist_names : list string) (kv : string * string) : res (list string) :=
  let '(k, v) := kv in
  let* _ := assert (negb (in_namespace self k) && negb (elem k new_names)
                    && negb (elem k hyp_names) && negb (elem k dist_names))
                   DuplicateLabel in
  let dist_names := dist_names ++ [k] in
  match split v with
  | [var1; var2] =>
      let* _ := assert (elem var1 variables && elem var2 variables
                        && negb (bool_decide (var1 = var2))) DistinctShape in
      inr dist_names
  | _ => inl (Raised DistinctShape)   (* [len(v_split) == 2] *)
  end.

(** Step 6: the variables that occur in the hypotheses or the assertion. *)
Definition used_vars (variables : list string) (prop : proposition)
  : gset string :=
  let used :=
    foldl (λ (used : gset string) hv,
             used ∪ list_to_set (filter (λ tok, tok ∈ variables) (split hv)))
          ∅ (values (prop_h prop)) in
  foldl (λ (used : gset string) tok,
           if elem tok variables then used ∪ {[tok]} else used)
        used (split (prop_a prop)).

Definition _check_ (prop : proposition) : res proposition :=
  (* step 2 *)
  let* (new_names, variables) := check_t prop in
  (* step 3 *)
  let* hyp_names :=
    foldM (check_h_entry new_names variables) (prop_h prop) [] in
  (* step 4 *)
  let* _ := check_tokens variables (prop_a prop) in
  (* step 5 *)
  let* _ :=
    foldM (check_d_entry new_names variables hyp_names) (prop_d prop) [] in
  (* step 6 *)
  let missing : gset string :=
    list_to_set variables ∖ used_vars variables prop in
  let* _ := assert (bool_decide (missing = ∅)) DeadVariable in
  inr {| prop_d := prop_d prop; prop_t := prop_t prop;
         prop_h := prop_h prop; prop_a := prop_a prop;
         prop_p := prop_p prop |}.
End Check.

(** ** The proof interpreter [_proof_check] *)

(** One line of the trace; each constructor stands for one f-string of the
    source and carries the values that the f-string formats. *)
Inductive trace_line :=
| TrPushType (idx : nat) (step expr : string)
    (* "Step {idx}: push type assumption '{step}' -> '{expr}'" *)
| TrPushHyp (idx : nat) (step expr : string)
    (* "Step {idx}: push hypothesis '{step}' -> '{expr}'" *)
| TrApply (idx : nat) (knd : kind) (step : string) (args : list string)
    (* "Step {idx}: apply {kind} '{step}', pop {args}" *)
| TrMatch (lbl pat_type var val : string)
    (* "  match {lbl}: type '{pat_type}', var '{var}' -> '{subs[var]}'" *)
| TrHypothesis (h_lbl actual : string)
    (* "  hypothesis {h_lbl} matches '{actual}'" *)
| TrConclude (inst_a : string)
    (* "  conclude -> '{inst_a}' and push to stack" *)
| TrDone (a : string).
    (* "Proof successfully concludes with assertion '{0}'" *)

(** What [_proof_check] returns: [True], or the trace when [detailed]. *)
Inductive check_result :=
| CTrue
| CTrace (trace : list trace_line).

(** [l[i]] *)
Definition index {A : Type} (l : list A) (i : nat) : res A :=
  match l !! i with
  | Some x => inr x
  | None => inl IndexError
  end.

(** [enumerate(l, start)] *)
Fixpoint enumerate {A : Type} (start : nat) (l : list A) : list (nat * A) :=
  match l with
  | [] => []
  | x :: l' => (start, x) :: enumerate (S start) l'
  end.

(** [stack.pop()]: the last element and the list without it. *)
Definition pop (stack : list string) : res (string * list string) :=
  match last stack with
  | Some x => inr (x, removelast stack)
  | None => inl IndexError
  end.

(** [[stack.pop() for _ in range(n)]], with the stack that is left. *)
Fixpoint pop_n (n : nat) (stack : list string)
  : res (list string * list string) :=
  match n with
  | 0 => inr ([], stack)
  | S n' =>
      let* (x, stack1) := pop stack in
      let* (xs, stack2) := pop_n n' stack1 in
      inr (x :: xs, stack2)
  end.

(** [' '.join(subs.get(tok, tok) for tok in pat.split())] *)
Definition substitute (subs : gmap string string) (pat : string) : string :=
  join " " (map (λ tok, default tok (subs !! tok)) (split pat)).

(** [set(x.split()) & set(y.split())] *)
Definition common_tokens (x y : string) : gset string :=
  list_to_set (split x) ∩ list_to_set (split y).

(** The loop state of the interpreter: the stack and the trace. *)
Definition state : Type := list string * list trace_line.

Section ProofCheck.
Variable self : FormalSystem.

(** Substitution loop, one iteration of
    [for lbl, expr in zip(t_keys, args[:len(t_keys)])]. *)
Definition unify_entry (rule : proposition)
    (st : gmap string string * list trace_line) (le : string * string)
  : res (gmap string string * list trace_line) :=
  let '(subs, trace) := st in
  let '(lbl, expr) := le in
  let* tv := getitem lbl (prop_t rule) in
  match split tv with
  | [pat_type; var] =>
      let tokens := split expr in
      let* tok0 := index tokens 0 in
      if bool_decide (tok0 ≠ pat_type) then inl (Raised TypeMismatch)
      else
        let subs := <[var := join " " (drop 1 tokens)]> subs in
        let* val := match subs !! var with
                    | Some val => inr val
                    | None => inl KeyError
                    end in
        inr (subs, trace ++ [TrMatch lbl pat_type var val])
  | _ => inl UnpackError
  end.

Definition unify (rule : proposition) (args : list string)
    (trace : list trace_line)
  : res (gmap string string * list trace_line) :=
  let t_keys := keys (prop_t rule) in
  foldM (unify_entry rule) (zip t_keys (take (length t_keys) args))
        (∅, trace).

(** Distinct check, one iteration of
    [for d_lbl, pair in rule['d'].items()]. *)
Definition distinct_entry (subs : gmap string string)
    (_ : unit) (dp : string * string) : res unit :=
  let '(d_lbl, vpair) := dp in
  match split vpair with
  | [v1; v2] =>
      match subs !! v1, subs !! v2 with
      | Some e1, Some e2 =>
          if bool_decide (common_tokens e1 e2 ≠ ∅)
          then inl (Raised DistinctViolation)
          else inr tt
      | _, _ => inr tt
      end
  | _ => inl UnpackError
  end.

Definition distinct_check (rule : proposition) (subs : gmap string string)
  : res unit :=
  foldM (distinct_entry subs) (prop_d rule) tt.

(** Hypothesis match, one iteration of
    [for i, h_lbl in enumerate(h_keys, start=len(t_keys))]. *)
Definition hyp_entry (rule : proposition) (subs : gmap string string)
    (args : list string) (trace : list trace_line) (ih : nat * string)
  : res (list trace_line) :=
  let '(i, h_lbl) := ih in
  let* h_pat := getitem h_lbl (prop_h rule) in
  let expected := substitute subs h_pat in
  let* actual := index args i in
  if bool_decide (actual ≠ expected) then inl (Raised HypothesisMismatch)
  else inr (trace ++ [TrHypothesis h_lbl actual]).

Definition match_hyps (rule : proposition) (subs : gmap string string)
    (args : list string) (trace : list trace_line) : res (list trace_line) :=
  foldM (hyp_entry rule subs args)
        (enumerate (length (keys (prop_t rule))) (keys (prop_h rule))) trace.

(** The "apply rule" branch of the loop body. *)
Definition apply_rule (rule : proposition) (knd : kind) (idx : nat)
    (step : string) (st : state) : res state :=
  let '(stack, trace) := st in
  let t_keys := keys (prop_t rule) in
  let h_keys := keys (prop_h rule) in
  let req_lbls := t_keys ++ h_keys in
  let n := length req_lbls in
  if length stack <? n then inl (Raised StackUnderflow)
  else
    let* (popped, stack) := pop_n n stack in
    let args := reverse popped in
    let trace := trace ++ [TrApply idx knd step args] in
    let* (subs, trace) := unify rule args trace in
    let* _ := distinct_check rule subs in
    let* trace := match_hyps rule subs args trace in
    let inst_a := substitute subs (prop_a rule) in
    inr (stack ++ [inst_a], trace ++ [TrConclude inst_a]).

(** The body of [for idx, step in enumerate(steps, 1)]. *)
Definition proof_step (thm : proposition) (st : state) (ist : nat * string)
  : res state :=
  let '(idx, step) := ist in
  let '(stack, trace) := st in
  if has_key step (prop_t thm) then
    let* expr := getitem step (prop_t thm) in
    inr (stack ++ [expr], trace ++ [TrPushType idx step expr])
  else if has_key step (prop_h thm) then
    let* expr := getitem step (prop_h thm) in
    inr (stack ++ [expr], trace ++ [TrPushHyp idx step expr])
  else if has_key step (axioms self) then
    let* rule := getitem step (axioms self) in
    apply_rule rule Kaxiom idx step st
  else if has_key step (theorems self) then
    let* rule := getitem step (theorems self) in
    apply_rule rule Ktheorem idx step st
  else inl (Raised UnknownStep).

(** [thm['p'].split() if isinstance(thm['p'], str) else thm['p']] *)
Definition proof_steps (thm : proposition) : res (list string) :=
  match prop_p thm with
  | None => inl KeyError
  | Some (PStr s) => inr (split s)
  | Some (PList l) => inr l
  end.

(** The whole [for] loop, from the empty stack and the empty trace. *)
Definition run_steps (thm : proposition) : res state :=
  let* steps := proof_steps thm in
  foldM (proof_step thm) (enumerate 1 steps) ([], []).

Definition _proof_check (thm : proposition) (detailed : bool)
  : res check_result :=
  let* (stack, trace) := run_steps thm in
  (* [len(stack) != 1 or stack[0] != thm['a']] *)
  let* bad :=
    if negb (length stack =? 1) then inr true
    else let* top := index stack 0 in
         inr (bool_decide (top ≠ prop_a thm)) in
  if (bad : bool) then inl (Raised MalformedProof)
  else
    let* top := index stack 0 in
    let trace := trace ++ [TrDone top] in
    inr (if detailed then CTrace trace else CTrue).
End ProofCheck.

(** ** The container *)

(** Methods that mutate [self]: the state reached and the result or the
    exception raised. *)
Definition M (A : Type) : Type := FormalSystem → res A * FormalSystem.

Definition ret {A : Type} (x : A) : M A := λ self, (inr x, self).

Definition bind {A B : Type} (m : M A) (k : A → M B) : M B :=
  λ self,
    match m self with
    | (inl e, self') => (inl e, self')
    | (inr x, self') => k x self'
    end.

Definition raise {A : Type} (e : exn) : M A := λ self, (inl e, self).

(** Evaluate an expression that reads [self] and may raise. *)
Definition read {A : Type} (f : FormalSystem → res A) : M A :=
  λ self, (f self, self).

(** Assign to an attribute of [self]. *)
Definition update (f : FormalSystem → FormalSystem) : M unit :=
  λ self, (inr tt, f self).

Notation "'run' x ':=' m 'in' k" := (bind m (λ x, k))
  (at level 10, x name, m at level 100, k at level 200, only parsing).

Fixpoint for_each {A : Type} (l : list A) (body : A → M unit) : M unit :=
  match l with
  | [] => ret tt
  | x :: l' => run _ := body x in for_each l' body
  end.

Definition set_constants (c : list string) (self : FormalSystem) :=
  {| constants := c; axioms := axioms self; theorems := theorems self;
     namespace := namespace self |}.
Definition set_axioms (a : dict proposition) (self : FormalSystem) :=
  {| constants := constants self; axioms := a; theorems := theorems self;
     namespace := namespace self |}.
Definition set_theorems (t : dict proposition) (self : FormalSystem) :=
  {| constants := constants self; axioms := axioms self; theorems := t;
     namespace := namespace self |}.
Definition set_namespace (n : gmap string kind) (self : FormalSystem) :=
  {| constants := constants self; axioms := axioms self;
     theorems := theorems self; namespace := n |}.

(** [self.namespace[label] = k] *)
Definition register (label : string) (k : kind) : M unit :=
  update (λ self, set_namespace (<[label := k]> (namespace self)) self).

(** [if label in self.namespace: raise ValueError(...)] *)
Definition check_fresh (label : string) : M unit :=
  run taken := read (λ self, inr (in_namespace self label)) in
  if (taken : bool) then raise (Raised DuplicateLabel) else ret tt.

Definition add_constant (constant : string) : M unit :=
  run _ := check_fresh constant in
  run _ := update (λ self, set_constants (constants self ++ [constant]) self) in
  register constant Kconstant.

Definition add_axiom (label : string) (axiom : proposition) : M unit :=
  run _ := check_fresh label in
  run checked := read (λ self, _check_ self axiom) in
  update (λ self, set_axioms (setitem label checked (axioms self)) self).

(** Truth value of the result of [_proof_check]. *)
Definition truthy (r : check_result) : bool :=
  match r with
  | CTrue => true
  | CTrace trace => negb (length trace =? 0)
  end.

Definition add_theorem (label : string) (theorem : proposition) : M unit :=
  run _ := check_fresh label in
  run thm := read (λ self, _check_ self theorem) in
  run ok := read (λ self, _proof_check self thm false) in
  if negb (truthy ok) then raise (Raised MalformedProof)
  else update (λ self, set_theorems (setitem label thm (theorems self)) self).

(** *** The constructor *)

Record InitialData := {
  init_constants : list string;
  init_axioms : dict proposition;
  init_theorems : dict proposition
}.

(** Body of [for c in self.constants]. *)
Definition init_constant (c : string) : M unit :=
  run _ := check_fresh c in
  register c Kconstant.

(** Body of [for a in self.axioms]. *)
Definition init_axiom (a : string) : M unit :=
  run _ := check_fresh a in
  run _ := register a Kaxiom in
  run checked := read (λ self, let* ax := getitem a (axioms self) in
                               _check_ self ax) in
  update (λ self, set_axioms (setitem a checked (axioms self)) self).

(** Body of [for p in self.theorems]. *)
Definition init_theorem (p : string) : M unit :=
  run _ := check_fresh p in
  run _ := register p Ktheorem in
  run checked := read (λ self, let* th := getitem p (theorems self) in
                               _check_ self th) in
  run _ := update (λ self,
                     set_theorems (setitem p checked (theorems self)) self) in
  run ok := read (λ self, let* th := getitem p (theorems self) in
                          _proof_check self th false) in
  match ok with
  | CTrue => ret tt
  | CTrace _ => raise (Raised MalformedProof)   (* [assert ... is True] *)
  end.

(** The part of [__init__] after the attributes are assigned. *)
Definition build_namespace : M unit :=
  run _ := update (set_namespace ∅) in
  run cs := read (λ self, inr (constants self)) in
  run _ := for_each cs init_constant in
  run axs := read (λ self, inr (keys (axioms self))) in
  run _ := for_each axs init_axiom in
  run ths := read (λ self, inr (keys (theorems self))) in
  for_each ths init_theorem.

(** The attributes assigned by the first [if] of [__init__]. *)
Definition init_attributes (constants : option (list string))
    (axioms theorems : option (dict proposition))
    (initial_data : option InitialData) : res FormalSystem :=
  match initial_data with
  | Some data =>
      inr (System (init_constants data) (init_axioms data)
                  (init_theorems data) ∅)
  | None =>
      match constants, axioms, theorems with
      | Some c, Some a, Some t => inr (System c a t ∅)
      | _, _, _ => inl (Raised MalformedField)   (* [assert ... is not None] *)
      end
  end.

Definition __init__ (constants : option (list string))
    (axioms theorems : option (dict proposition))
    (initial_data : option InitialData) : res FormalSystem :=
  let* self := init_attributes constants axioms theorems initial_data in
  match build_namespace self with
  | (inl e, _) => inl e
  | (inr _, self') => inr self'
  end.

(** ** A small database *)

Module Scenario.

Definition csts : list string :=
  ["wff"; "|-"; "("; ")"; "->"; "set"; "="].

(** [FormalSystem(csts, {}, {})] *)
Definition base : FormalSystem :=
  System csts [] [] (list_to_map ((λ c, (c, Kconstant)) <$> csts)).

(** [{'d': {}, 't': {'wph': 'wff ph'}, 'h': {}, 'a': 'wff ph'}] *)
Definition wid : proposition :=
  Proposition [] [("wph", "wff ph")] [] "wff ph" None.

(** [{'d': {}, 't': {'wps': 'wff ps'}, 'h': {}, 'a': 'wff ( ps -> ps )'}] *)
Definition wii : proposition :=
  Proposition [] [("wps", "wff ps")] [] "wff ( ps -> ps )" None.

(** [{'d': {}, 't': {'wph': 'wff ph'}, 'h': {'idi.1': '|- ph'},
      'a': '|- ph', 'p': 'idi.1'}] *)
Definition idi : proposition :=
  Proposition [] [("wph", "wff ph")] [("idi.1", "|- ph")] "|- ph"
              (Some (PStr "idi.1")).

(** [{'d': {}, 't': {'wps': 'wff ps'}, 'h': {'h': '|- ps'},
      'a': '|- ps', 'p': 'wps h idi'}] *)
Definition uses_idi : proposition :=
  Proposition [] [("wps", "wff ps")] [("h", "|- ps")] "|- ps"
              (Some (PStr "wps h idi")).

(** [{'d': {}, 't': {'wps': 'wff ps'}, 'h': {}, 'a': 'wff ps',
      'p': 'wps wid'}] *)
Definition by_wid : proposition :=
  Proposition [] [("wps", "wff ps")] [] "wff ps" (Some (PStr "wps wid")).

(** [{'d': {}, 't': {'wps': 'wff ps'}, 'h': {'h1': ''}, 'a': 'wff ps',
      'p': 'h1 wid'}] *)
Definition empty_hyp : proposition :=
  Proposition [] [("wps", "wff ps")] [("h1", "")] "wff ps"
              (Some (PStr "h1 wid")).

(** [{'d': {}, 't': {}, 'h': {}, 'a': 'wff ph'}] *)
Definition wnew : proposition := Proposition [] [] [] "wff ph" None.

(** [{'d': {}, 't': {'wph': 'wff ph'}, 'h': {}, 'a': 'wff ph', 'p': ''}] *)
Definition no_steps : proposition :=
  Proposition [] [("wph", "wff ph")] [] "wff ph" (Some (PStr "")).

(** [base] after [add_axiom('wid', wid)]. *)
Definition with_wid : FormalSystem := set_axioms [("wid", wid)] base.

(** [base] after [add_theorem('idi', idi)]. *)
Definition with_idi : FormalSystem := set_theorems [("idi", idi)] base.

End Scenario.

(** ** Notions used in the statements *)

Definition same_data (s s' : FormalSystem) : Prop :=
  constants s = constants s' ∧ axioms s = axioms s'
  ∧ theorems s = theorems s'.

Definition normal (prop : proposition) : Prop :=
  ∃ s, _check_ s prop = inr prop.

Module InitData.
Import Scenario.

(** An axiom whose assertion uses the undeclared token ['ph']. *)
Definition unknown_token : InitialData :=
  {| init_constants := csts; init_axioms := [("wnew", wnew)];
     init_theorems := [] |}.

(** A theorem whose proof has no steps. *)
Definition wrong_proof : InitialData :=
  {| init_constants := csts; init_axioms := [];
     init_theorems := [("th", no_steps)] |}.

Definition good : InitialData :=
  {| init_constants := csts; init_axioms := [("wid", wid)];
     init_theorems := [("idi", idi)] |}.

(** [FormalSystem(None, None, initial_data=good)] *)
Definition built : FormalSystem :=
  System csts [("wid", wid)] [("idi", idi)]
         (<["idi" := Ktheorem]>
            (<["wid" := Kaxiom]> (namespace base))).
End InitData.

(** The index of the step that a "Step {idx}: ..." line reports. *)
Definition step_header (line : trace_line) : option nat :=
  match line with
  | TrPushType idx _ _ | TrPushHyp idx _ _ | TrApply idx _ _ _ => Some idx
  | _ => None
  end.

(** The rule that an "apply" step resolves to. *)
Definition resolve_rule (self : FormalSystem) (step : string)
  : res proposition :=
  if has_key step (axioms self) then getitem step (axioms self)
  else if has_key step (theorems self) then getitem step (theorems self)
  else inl (Raised UnknownStep).

(** The number of trace lines that a step appends. *)
Definition step_lines (self : FormalSystem) (thm : proposition)
    (step : string) : nat :=
  if has_key step (prop_t thm) || has_key step (prop_h thm) then 1
  else match resolve_rule self step with
       | inr rule => 2 + length (prop_t rule) + length (prop_h rule)
       | inl _ => 0
       end.

(** The line "  match {lbl}: ..." of the typing entry [lbl] of [rule]. *)
Definition match_line (rule : proposition) (lbl : string)
    (line : trace_line) : Prop :=
  ∃ tv pat_type var val,
    getitem lbl (prop_t rule) = inr tv ∧ split tv = [pat_type; var]
    ∧ line = TrMatch lbl pat_type var val.

(** The line "  hypothesis {h_lbl} matches ..." of the hypothesis [h_lbl]. *)
Definition hypothesis_line (h_lbl : string) (line : trace_line) : Prop :=
  ∃ actual, line = TrHypothesis h_lbl actual.

(** The lines that the step [step], of index [idx], appends to the trace: a
    push gives its header alone; the application of a rule gives its
    header, then one match line per typing entry of the rule, in the order
    of the typing block, then one line per hypothesis of the rule, in
    order, then the conclusion line. *)
Definition step_segment (self : FormalSystem) (thm : proposition)
    (idx : nat) (step : string) (seg : list trace_line) : Prop :=
  if has_key step (prop_t thm) then
    ∃ expr, getitem step (prop_t thm) = inr expr
            ∧ seg = [TrPushType idx step expr]
  else if has_key step (prop_h thm) then
    ∃ expr, getitem step (prop_h thm) = inr expr
            ∧ seg = [TrPushHyp idx step expr]
  else
    ∃ rule args ms hs inst_a,
      resolve_rule self step = inr rule
      ∧ length args = length (prop_t rule) + length (prop_h rule)
      ∧ seg = TrApply idx (if has_key step (axioms self) then Kaxiom
                           else Ktheorem) step args
              :: ms ++ hs ++ [TrConclude inst_a]
      ∧ Forall2 (match_line rule) (keys (prop_t rule)) ms
      ∧ Forall2 hypothesis_line (keys (prop_h rule)) hs.

(** [trace'] is [trace] followed by [n] lines whose step headers are [hs]. *)
Definition extends (trace trace' : list trace_line) (n : nat)
    (hs : list nat) : Prop :=
  ∃ ext, trace' = trace ++ ext ∧ length ext = n
         ∧ omap step_header ext = hs.

(** The typing entry under label [k] of [prop] declares the variable [x]. *)
Definition declares (prop : proposition) (k x : string) : Prop :=
  ∃ tv c, getitem k (prop_t prop) = inr tv ∧ split tv = [c; x].

(** The shape of a distinct entry accepted by step 5. *)
Definition distinct_pair (variables : list string) (kv : string * string)
  : Prop :=
  ∃ v1 v2, split kv.2 = [v1; v2] ∧ v1 ∈ variables ∧ v2 ∈ variables
           ∧ v1 ≠ v2.

(** The two variables of the entry are bound to expressions that share a
    token. *)
Definition violates (subs : gmap string string) (kv : string * string)
  : Prop :=
  ∃ v1 v2 e1 e2,
    split kv.2 = [v1; v2] ∧ subs !! v1 = Some e1 ∧ subs !! v2 = Some e2
    ∧ ∃ tok, tok ∈ split e1 ∧ tok ∈ split e2.

(** [step] is no typing label and no hypothesis label of [thm], no axiom and
    no theorem of [self]. *)
Definition unresolved (self : FormalSystem) (thm : proposition)
    (step : string) : Prop :=
  has_key step (prop_t thm) = false ∧ has_key step (prop_h thm) = false
  ∧ has_key step (axioms self) = false
  ∧ has_key step (theorems self) = false.

Module Distinct.
(** [{'d': {'d1': 'x y'}, 't': {'vx': 'set x', 'vy': 'set y'}, 'h': {},
      'a': 'wff x = y'}] *)
Definition dvr : proposition :=
  Proposition [("d1", "x y")] [("vx", "set x"); ("vy", "set y")] []
              "wff x = y" None.

(** The substitution of [dvr] applied to ['set a'] and [e]. *)
Definition subs_a (e : string) : gmap string string :=
  <["y" := e]> (<["x" := "a"]> ∅).

Definition matches (e : string) : list trace_line :=
  [TrMatch "vx" "set" "x" "a"; TrMatch "vy" "set" "y" e].
End Distinct.

(** ** Notions used in the further properties *)

(** The five kinds that the normalizer raises. *)
Definition check_kinds : list exn :=
  [Raised DuplicateLabel; Raised MalformedField; Raised UnknownToken;
   Raised DistinctShape; Raised DeadVariable].

(** [name] is outside the global namespace of [self]. *)
Definition fresh_name (self : FormalSystem) (name : string) : Prop :=
  namespace self !! name = None.

(** No character of [s] is whitespace. *)
Fixpoint nospace (s : string) : bool :=
  match s with
  | EmptyString => true
  | String c s' => negb (isspace c) && nospace s'
  end.

(** The tokens that replace the token [tok] of a pattern. *)
Definition token_image (subs : gmap string string) (tok : string)
  : list string :=
  match subs !! tok with
  | Some e => split e
  | None => [tok]
  end.

(** A call of one of the three public methods. *)
Inductive call :=
| AddConstant (constant : string)
| AddAxiom (label : string) (axiom : proposition)
| AddTheorem (label : string) (theorem : proposition).

Definition run_call (c : call) : M unit :=
  match c with
  | AddConstant constant => add_constant constant
  | AddAxiom label axiom => add_axiom label axiom
  | AddTheorem label theorem => add_theorem label theorem
  end.

(** The system after a sequence of calls, the caller catching the
    exceptions: each call starts in the state that the previous one has
    reached. *)
Definition after_calls (cs : list call) (self : FormalSystem)
  : FormalSystem :=
  foldl (λ s c, snd (run_call c s)) self cs.

(** Every stored axiom and theorem is accepted by the normalizer. *)
Definition rules_normal (self : FormalSystem) : Prop :=
  Forall (λ kv, normal kv.2) (axioms self)
  ∧ Forall (λ kv, normal kv.2) (theorems self).
(** A call that adds a rule uses a label that names no axiom and no theorem
    of the system. *)
Definition rule_label_free (c : call) (self : FormalSystem) : Prop :=
  match c with
  | AddConstant _ => True
  | AddAxiom l _ | AddTheorem l _ =>
      has_key l (axioms self) = false ∧ has_key l (theorems self) = false
  end.

(** The assertion of [rule] has a first token, and the typing block of
    [rule] declares no variable of that name. *)
Definition typecode_first (rule : proposition) : Prop :=
  ∃ c rest, split (prop_a rule) = c :: rest ∧ ∀ k, ¬ declares rule k c.

(** The six kinds that the interpreter raises. *)
Definition proof_kinds : list exn :=
  [Raised UnknownStep; Raised StackUnderflow; Raised TypeMismatch;
   Raised DistinctViolation; Raised HypothesisMismatch;
   Raised MalformedProof].

(** Every expression of the stack has a token. *)
Definition has_tokens (stack : list string) : Prop :=
  Forall (λ e, split e ≠ []) stack.

(** A theorem without variables and hypotheses whose proof is the single
    step [l]. *)
Definition cites (l a : string) : proposition :=
  {| prop_d := []; prop_t := []; prop_h := []; prop_a := a;
     prop_p := Some (PList [l]) |}.

(** The invariants of a proposition whose variables are [vs], in the system
    [self]: the typing entries are a constant followed by a variable, the
    local names are pairwise different and outside the namespace, the
    tokens of the hypotheses and of the assertion are constants or
    variables, the distinct entries hold two different variables, and every
    variable is used. *)
Definition well_formed (self : FormalSystem) (prop : proposition)
    (vs : list string) : Prop :=
  Forall2 (λ kv x, ∃ c, split kv.2 = [c; x] ∧ c ∈ constants self)
          (prop_t prop) vs
  ∧ NoDup (keys (prop_t prop) ++ vs ++ keys (prop_h prop)
           ++ keys (prop_d prop))
  ∧ Forall (fresh_name self)
           (keys (prop_t prop) ++ vs ++ keys (prop_h prop)
            ++ keys (prop_d prop))
  ∧ Forall (λ kv, ∀ tok, tok ∈ split kv.2 →
                         tok ∈ constants self ∨ tok ∈ vs) (prop_h prop)
  ∧ (∀ tok, tok ∈ split (prop_a prop) → tok ∈ constants self ∨ tok ∈ vs)
  ∧ Forall (distinct_pair vs) (prop_d prop)
  ∧ (∀ x, x ∈ vs →
          (∃ hv, hv ∈ values (prop_h prop) ∧ x ∈ split hv)
          ∨ x ∈ split (prop_a prop)).

Module ModusPonens.
(** [{'d': {}, 't': {'wph': 'wff ph', 'wps': 'wff ps'},
      'h': {'min': '|- ph', 'maj': '|- ( ph -> ps )'}, 'a': '|- ps'}] *)
Definition axmp : proposition :=
  Proposition [] [("wph", "wff ph"); ("wps", "wff ps")]
              [("min", "|- ph"); ("maj", "|- ( ph -> ps )")] "|- ps" None.

(** The arguments of [axmp] on the stack, above ['wff c']. *)
Definition args : list string :=
  ["wff a"; "wff b"; "|- a"; "|- ( a -> b )"].

Definition subs : gmap string string := <["ps" := "b"]> (<["ph" := "a"]> ∅).

Definition lines : list trace_line :=
  [TrApply 7 Kaxiom "ax-mp" args; TrMatch "wph" "wff" "ph" "a";
   TrMatch "wps" "wff" "ps" "b"].
End ModusPonens.

(** ** Basic facts about loops and dictionaries *)

Lemma foldM_cons {A S : Type} (f : S → A → res S) (x : A) (l : list A)
    (s : S) :
  foldM f (x :: l) s = (let* s' := f s x in foldM f l s').
Proof. done. Qed.

Lemma getitem_has_key {V : Type} (k : string) (m : dict V) :
  has_key k m = true → ∃ v, getitem k m = inr v ∧ (k, v) ∈ m.
Proof.
  unfold has_key, keys. rewrite bool_decide_eq_true.
  induction m as [|[k' v'] m IH]; simpl.
  - intros H. by apply elem_of_nil in H.
  - intros H. case_bool_decide as Hk.
    + subst. exists v'. split; [done|]. left.
    + apply elem_of_cons in H as [H|H]; [done|].
      destruct (IH H) as (v & Hv & Hin). exists v. split; [done|]. by right.
Qed.

Lemma setitem_same {V : Type} (k : string) (v : V) (m : dict V) :
  getitem k m = inr v → setitem k v m = m.
Proof.
  induction m as [|[k' v'] m IH]; simpl; [done|].
  case_bool_decide; intros Hget; [by simplify_eq|]. by rewrite IH.
Qed.

(** ** The normalizer returns its argument *)

Lemma check_returns_input (self : FormalSystem) (prop prop' : proposition) :
  _check_ self prop = inr prop' → prop' = prop.
Proof.
  unfold _check_. intros H.
  repeat case_match; simplify_eq. by destruct prop.
Qed.

(** C9. The normalizer is idempotent: a proposition that [_check_] accepts is
    returned with the same contents of all its fields, and checking the
    output again in the same system returns the same record. *)
Theorem check_idempotent (self : FormalSystem) (prop prop' : proposition) :
  _check_ self prop = inr prop' →
  (prop_d prop' = prop_d prop ∧ prop_t prop' = prop_t prop
   ∧ prop_h prop' = prop_h prop ∧ prop_a prop' = prop_a prop
   ∧ prop_p prop' = prop_p prop)
  ∧ _check_ self prop' = inr prop'.
Proof.
  intros H. pose proof (check_returns_input _ _ _ H) as ->. done.
Qed.

(** ** Atomicity of the three additions *)

Ltac unfold_M :=
  unfold add_constant, add_axiom, add_theorem, check_fresh, register,
    bind, read, update, raise, ret in *.

(** C10. [add_constant], [add_axiom] and [add_theorem] are atomic: when the
    call raises, the state reached (constants, axioms, theorems and
    namespace) is the state it started from. *)
Theorem add_atomic (self self' : FormalSystem) (e : exn) :
  (∀ constant, add_constant constant self = (inl e, self') → self' = self)
  ∧ (∀ label axiom, add_axiom label axiom self = (inl e, self') → self' = self)
  ∧ (∀ label theorem,
       add_theorem label theorem self = (inl e, self') → self' = self).
Proof.
  split_and!; intros; unfold_M; repeat case_match; by simplify_eq.
Qed.

(** ** The final check of the interpreter *)

Lemma final_check_ok (self : FormalSystem) (thm : proposition)
    (detailed : bool) (trace : list trace_line) :
  run_steps self thm = inr ([prop_a thm], trace) →
  _proof_check self thm detailed
  = inr (if detailed then CTrace (trace ++ [TrDone (prop_a thm)]) else CTrue).
Proof.
  intros H. unfold _proof_check. rewrite H. simpl.
  by rewrite bool_decide_eq_false_2 by (intros ?; congruence).
Qed.

Lemma final_check_bad (self : FormalSystem) (thm : proposition)
    (detailed : bool) (stack : list string) (trace : list trace_line) :
  run_steps self thm = inr (stack, trace) →
  stack ≠ [prop_a thm] →
  _proof_check self thm detailed = inl (Raised MalformedProof).
Proof.
  intros H Hne. unfold _proof_check. rewrite H.
  destruct stack as [|top [|? ?]]; simpl; try done.
  case_bool_decide; [done|]. destruct Hne. f_equal.
  by destruct (decide (top = prop_a thm)).
Qed.

Lemma proof_check_inv (self : FormalSystem) (thm : proposition)
    (detailed : bool) (r : check_result) :
  _proof_check self thm detailed = inr r →
  ∃ trace, run_steps self thm = inr ([prop_a thm], trace)
           ∧ r = if detailed then CTrace (trace ++ [TrDone (prop_a thm)])
                 else CTrue.
Proof.
  intros H. destruct (run_steps self thm) as [e|[stack trace]] eqn:Hrun.
  - unfold _proof_check in H. by rewrite Hrun in H.
  - destruct (decide (stack = [prop_a thm])) as [->|Hne].
    + exists trace. split; [done|].
      rewrite (final_check_ok _ _ _ _ Hrun) in H. by simplify_eq.
    + by rewrite (final_check_bad _ _ _ _ _ Hrun Hne) in H.
Qed.

(** C4. The run of the proof of [thm] succeeds if and only if executing all
    the steps leaves a stack that holds exactly one expression, equal to the
    assertion of [thm]; when all the steps execute and leave any other
    stack, the run fails with [MalformedProof]. *)
Theorem proof_check_succeeds_iff (self : FormalSystem) (thm : proposition)
    (detailed : bool) :
  ((∃ r, _proof_check self thm detailed = inr r)
   ↔ (∃ stack trace, run_steps self thm = inr (stack, trace)
                     ∧ length stack = 1 ∧ stack !! 0 = Some (prop_a thm)))
  ∧ (∀ stack trace,
       run_steps self thm = inr (stack, trace) →
       ¬ (length stack = 1 ∧ stack !! 0 = Some (prop_a thm)) →
       _proof_check self thm detailed = inl (Raised MalformedProof)).
Proof.
  split; [split|].
  - intros [r Hr]. apply proof_check_inv in Hr as (trace & Hrun & _).
    by exists [prop_a thm], trace.
  - intros (stack & trace & Hrun & Hlen & Htop).
    destruct stack as [|top [|? ?]]; simplify_eq/=.
    eexists. by apply final_check_ok.
  - intros stack trace Hrun Hne. eapply final_check_bad; [done|].
    intros ->. by apply Hne.
Qed.

(** ** Labels accepted by [add_axiom] and [add_theorem] *)

(** [add_axiom] and [add_theorem] leave the namespace as it is. *)
Lemma add_keeps_namespace (self self' : FormalSystem) (label : string)
    (prop : proposition) :
  add_axiom label prop self = (inr tt, self')
  ∨ add_theorem label prop self = (inr tt, self') →
  namespace self' = namespace self.
Proof.
  intros [H|H]; unfold_M; repeat case_match; by simplify_eq.
Qed.

(** C1. On the system built from the constants alone, [add_axiom('wid', _)]
    is accepted and leaves ['wid'] out of the namespace, so that a second
    [add_axiom('wid', _)] is accepted too and replaces the first axiom, and
    [add_theorem('wid', _)] and [add_constant('wid')] are accepted as well;
    the same holds for a label accepted by [add_theorem]. *)
Theorem accepted_label_not_registered :
  __init__ (Some Scenario.csts) (Some []) (Some []) None = inr Scenario.base
  ∧ add_axiom "wid" Scenario.wid Scenario.base = (inr tt, Scenario.with_wid)
  ∧ namespace Scenario.with_wid !! "wid" = None
  ∧ add_axiom "wid" Scenario.wii Scenario.with_wid
    = (inr tt, set_axioms [("wid", Scenario.wii)] Scenario.base)
  ∧ add_theorem "wid" Scenario.idi Scenario.with_wid
    = (inr tt, set_theorems [("wid", Scenario.idi)] Scenario.with_wid)
  ∧ fst (add_constant "wid" Scenario.with_wid) = inr tt
  ∧ add_theorem "idi" Scenario.idi Scenario.base
    = (inr tt, Scenario.with_idi)
  ∧ namespace Scenario.with_idi !! "idi" = None
  ∧ add_theorem "idi" Scenario.idi Scenario.with_idi
    = (inr tt, Scenario.with_idi)
  ∧ fst (add_axiom "idi" Scenario.wid Scenario.with_idi) = inr tt.
Proof. split_and!; vm_compute; reflexivity. Qed.

(** ** Unification of an expression without tokens *)

(** C3. In the system that holds the axiom ['wid'], the normalizer accepts a
    theorem whose hypothesis ['h1'] is the empty string; its proof
    ['h1 wid'] pushes that hypothesis (the stack after the first step is
    [['']]) and applies ['wid'], and the type unification of the popped
    expression raises [IndexError], which is none of the error kinds:
    neither a binding nor [TypeMismatch]. *)
Theorem unify_empty_expression :
  _check_ Scenario.with_wid Scenario.empty_hyp = inr Scenario.empty_hyp
  ∧ run_steps Scenario.with_wid
      {| prop_d := []; prop_t := [("wps", "wff ps")]; prop_h := [("h1", "")];
         prop_a := "wff ps"; prop_p := Some (PStr "h1") |}
    = inr ([""], [TrPushHyp 1 "h1" ""])
  ∧ unify Scenario.wid [""] [TrPushHyp 1 "h1" ""; TrApply 2 Kaxiom "wid" [""]]
    = inl IndexError
  ∧ _proof_check Scenario.with_wid Scenario.empty_hyp false = inl IndexError
  ∧ add_theorem "th" Scenario.empty_hyp Scenario.with_wid
    = (inl IndexError, Scenario.with_wid).
Proof. split_and!; vm_compute; reflexivity. Qed.

(** ** The constructor *)

Lemma getitem_elem {V : Type} (k : string) (v : V) (m : dict V) :
  NoDup (keys m) → (k, v) ∈ m → getitem k m = inr v.
Proof.
  unfold keys. induction m as [|[k' v'] m IH]; simpl.
  - intros _ H. by apply elem_of_nil in H.
  - rewrite NoDup_cons. intros [Hk Hnd] Hin.
    apply elem_of_cons in Hin as [Heq|Hin].
    + simplify_eq. by rewrite bool_decide_eq_true_2.
    + rewrite bool_decide_eq_false_2; [by apply IH|].
      intros ->. apply Hk. apply list_elem_of_fmap. by exists (k', v).
Qed.

(** The interpreter reads the axioms and the theorems of the system only. *)
Lemma proof_check_ext (s s' : FormalSystem) (thm : proposition)
    (detailed : bool) :
  axioms s = axioms s' → theorems s = theorems s' →
  _proof_check s thm detailed = _proof_check s' thm detailed.
Proof.
  intros Ha Ht. unfold _proof_check, run_steps, proof_step.
  by rewrite Ha, Ht.
Qed.

Section InitLoop.
Variable body : string → M unit.
Variable k : kind.
Variable P : string → FormalSystem → Prop.
Hypothesis body_inv : ∀ x s s',
  body x s = (inr tt, s') →
  namespace s !! x = None
  ∧ s' = set_namespace (<[x := k]> (namespace s)) s
  ∧ P x s'.
Hypothesis P_data : ∀ x s s', same_data s s' → P x s → P x s'.

Lemma for_each_init (l : list string) (s s' : FormalSystem) :
  for_each l body s = (inr tt, s') →
  same_data s s'
  ∧ Forall (λ x, P x s') l
  ∧ NoDup l
  ∧ (∀ x, x ∈ l → namespace s !! x = None)
  ∧ dom (namespace s') = dom (namespace s) ∪ list_to_set l.
Proof.
  revert s. induction l as [|x l IH]; intros s; simpl.
  - unfold ret. intros [= <-]. split_and!; try done.
    + constructor.
    + intros x Hx. by apply elem_of_nil in Hx.
    + by rewrite union_empty_r_L.
  - unfold bind. destruct (body x s) as [[e|[]] s1] eqn:Hb; [done|].
    intros Hl. destruct (body_inv _ _ _ Hb) as (Hx & -> & HP).
    destruct (IH _ Hl) as (Hsame & Hall & Hnd & Hfresh & Hdom).
    simpl in *.
    assert (Hxl : x ∉ l).
    { intros Hin. specialize (Hfresh _ Hin).
      by rewrite lookup_insert_eq in Hfresh. }
    split_and!.
    + done.
    + constructor; [|done]. eapply P_data; [|exact HP]. done.
    + by constructor.
    + intros y Hy. apply elem_of_cons in Hy as [->|Hy]; [done|].
      specialize (Hfresh _ Hy).
      rewrite lookup_insert_ne in Hfresh; [done|]. by intros ->.
    + rewrite Hdom, dom_insert_L. apply set_eq. intros y.
      rewrite !elem_of_union, elem_of_singleton. tauto.
Qed.
End InitLoop.

Lemma not_in_namespace (self : FormalSystem) (x : string) :
  in_namespace self x = false → namespace self !! x = None.
Proof.
  unfold in_namespace. rewrite bool_decide_eq_false.
  apply eq_None_not_Some.
Qed.

Lemma init_constant_inv (c : string) (self self' : FormalSystem) :
  init_constant c self = (inr tt, self') →
  namespace self !! c = None
  ∧ self' = set_namespace (<[c := Kconstant]> (namespace self)) self
  ∧ True.
Proof.
  unfold init_constant. unfold_M. intros H.
  repeat case_match; simplify_eq. split_and!; [|done..].
  by apply not_in_namespace.
Qed.

Lemma init_axiom_inv (a : string) (self self' : FormalSystem) :
  init_axiom a self = (inr tt, self') →
  namespace self !! a = None
  ∧ self' = set_namespace (<[a := Kaxiom]> (namespace self)) self
  ∧ ∃ ax, getitem a (axioms self') = inr ax ∧ normal ax.
Proof.
  unfold init_axiom. unfold_M. intros H.
  repeat case_match; simplify_eq. simpl in *.
  match goal with H : _check_ _ _ = inr _ |- _ =>
    pose proof (check_returns_input _ _ _ H) as -> end.
  rewrite setitem_same by done. split_and!.
  - by apply not_in_namespace.
  - by destruct f.
  - eexists. split; [done|]. by eexists.
Qed.

Lemma init_theorem_inv (p : string) (self self' : FormalSystem) :
  init_theorem p self = (inr tt, self') →
  namespace self !! p = None
  ∧ self' = set_namespace (<[p := Ktheorem]> (namespace self)) self
  ∧ ∃ th, getitem p (theorems self') = inr th ∧ normal th
          ∧ _proof_check self' th false = inr CTrue.
Proof.
  unfold init_theorem. unfold_M. intros H.
  repeat case_match; simplify_eq. simpl in *.
  match goal with H : _check_ _ _ = inr _ |- _ =>
    pose proof (check_returns_input _ _ _ H) as -> end.
  rewrite setitem_same in * by done.
  assert (set_theorems (theorems f)
            (set_namespace (<[p:=Ktheorem]> (namespace f)) f)
          = set_namespace (<[p:=Ktheorem]> (namespace f)) f) as Heq.
  { by destruct f. }
  rewrite Heq in *.
  match goal with
  | H1 : getitem p _ = inr ?x, H2 : getitem p _ = inr ?y |- _ =>
      assert (x = y) as -> by congruence
  end.
  split_and!.
  - by apply not_in_namespace.
  - done.
  - eexists. split; [done|]. split; [|done]. unfold normal. eauto.
Qed.

Lemma build_namespace_inv (s0 self : FormalSystem) :
  build_namespace s0 = (inr tt, self) →
  same_data s0 self
  ∧ NoDup (constants self ++ keys (axioms self) ++ keys (theorems self))
  ∧ dom (namespace self)
    = list_to_set (constants self ++ keys (axioms self)
                   ++ keys (theorems self))
  ∧ Forall (λ a, ∃ ax, getitem a (axioms self) = inr ax ∧ normal ax)
           (keys (axioms self))
  ∧ Forall (λ p, ∃ th, getitem p (theorems self) = inr th ∧ normal th
                       ∧ _proof_check self th false = inr CTrue)
           (keys (theorems self)).
Proof.
  unfold build_namespace, bind, update, read. simpl.
  destruct (for_each (constants s0) init_constant _) as [[e|[]] s1] eqn:H1;
    [done|].
  destruct (for_each (keys (axioms s1)) init_axiom s1) as [[e|[]] s2] eqn:H2;
    [done|].
  intros H3.
  apply (for_each_init _ Kconstant (λ _ _, True)) in H1
    as ((Hc1 & Ha1 & Ht1) & _ & Hnd1 & _ & Hdom1);
    [|apply init_constant_inv|done].
  apply (for_each_init _ Kaxiom
           (λ a s, ∃ ax, getitem a (axioms s) = inr ax ∧ normal ax)) in H2
    as ((Hc2 & Ha2 & Ht2) & Hall2 & Hnd2 & Hfr2 & Hdom2);
    [|apply init_axiom_inv|by intros x s s' (_ & <- & _)].
  apply (for_each_init _ Ktheorem
           (λ p s, ∃ th, getitem p (theorems s) = inr th ∧ normal th
                         ∧ _proof_check s th false = inr CTrue)) in H3
    as ((Hc3 & Ha3 & Ht3) & Hall3 & Hnd3 & Hfr3 & Hdom3);
    [|apply init_theorem_inv|].
  2:{ intros x s s' (_ & Ha & Ht) (th & Hg & Hn & Hp). exists th.
      rewrite <- Ht. split_and!; [done..|].
      by rewrite <- (proof_check_ext s s'). }
  simpl in *. rewrite dom_empty_L, union_empty_l_L in Hdom1.
  assert (same_data s0 self) as Hsame by (split_and!; congruence).
  assert (axioms s1 = axioms self) as Ea1 by congruence.
  assert (theorems s2 = theorems self) as Et2 by congruence.
  assert (constants s0 = constants self) as Ec0 by congruence.
  rewrite Ea1 in *. rewrite Et2 in *. rewrite Ec0 in *.
  clear Hc1 Hc2 Hc3 Ha2 Ht2 Ea1 Et2.
  split_and!.
  - done.
  - apply NoDup_app. split_and!; [done| |].
    + intros x Hx Hin. apply elem_of_app in Hin as [Hin|Hin].
      * specialize (Hfr2 _ Hin). apply not_elem_of_dom in Hfr2.
        apply Hfr2. rewrite Hdom1. by apply elem_of_list_to_set.
      * specialize (Hfr3 _ Hin). apply not_elem_of_dom in Hfr3.
        apply Hfr3. rewrite Hdom2, Hdom1. apply elem_of_union_l.
        by apply elem_of_list_to_set.
    + apply NoDup_app. split_and!; [done| |done].
      intros x Hx Hin. specialize (Hfr3 _ Hin). apply not_elem_of_dom in Hfr3.
      apply Hfr3. rewrite Hdom2. apply elem_of_union_r.
      by apply elem_of_list_to_set.
  - rewrite Hdom3, Hdom2, Hdom1.
    by rewrite !list_to_set_app_L, (assoc_L (∪)).
  - eapply Forall_impl; [exact Hall2|]. simpl.
    intros a (ax & Hg & Hn). exists ax. by rewrite <- Ha3.
  - done.
Qed.

(** C2, as stated, fails: construction from [initial_data] normalizes the
    axioms and checks the proofs. Prebuilt data whose axiom uses an
    undeclared token is rejected with [UnknownToken], and prebuilt data whose
    theorem has an empty proof is rejected with [MalformedProof]. *)
Lemma initial_data_is_verified :
  __init__ None None None (Some InitData.unknown_token)
  = inl (Raised UnknownToken)
  ∧ __init__ None None None (Some InitData.wrong_proof)
    = inl (Raised MalformedProof).
Proof. split; vm_compute; reflexivity. Qed.

(** C2, amended. Construction from [initial_data] takes the constants, the
    axioms and the theorems from it and validates them as the construction
    from the three arguments does: it returns what
    [FormalSystem(data.constants, data.axioms, data.theorems)] returns. When
    it succeeds, the stored constants, axioms and theorems are those
    supplied, all their labels are pairwise different and registered in the
    namespace, every axiom and theorem is accepted by the normalizer, and
    the proof of every theorem checks in the system built. *)
Theorem init_from_initial_data (cs : option (list string))
    (axs ths : option (dict proposition)) (data : InitialData) :
  __init__ cs axs ths (Some data)
  = __init__ (Some (init_constants data)) (Some (init_axioms data))
             (Some (init_theorems data)) None
  ∧ ∀ self,
      __init__ cs axs ths (Some data) = inr self →
      constants self = init_constants data
      ∧ axioms self = init_axioms data
      ∧ theorems self = init_theorems data
      ∧ NoDup (init_constants data ++ keys (init_axioms data)
               ++ keys (init_theorems data))
      ∧ dom (namespace self)
        = list_to_set (init_constants data ++ keys (init_axioms data)
                       ++ keys (init_theorems data))
      ∧ (∀ a ax, (a, ax) ∈ init_axioms data → normal ax)
      ∧ (∀ p th, (p, th) ∈ init_theorems data →
           normal th ∧ _proof_check self th false = inr CTrue).
Proof.
  split; [done|]. intros self. unfold __init__. simpl.
  destruct (build_namespace _) as [[e|[]] s] eqn:Hb; [done|].
  intros [= ->].
  apply build_namespace_inv in Hb
    as ((Hc & Ha & Ht) & Hnd & Hdom & Hax & Hth).
  simpl in *. rewrite <- Hc, <- Ha, <- Ht in *.
  apply NoDup_app in Hnd as Hnd'. destruct Hnd' as (_ & _ & Hnd').
  apply NoDup_app in Hnd' as (Hnda & _ & Hndt).
  split_and!; try done.
  - intros a ax Hin. rewrite Forall_forall in Hax.
    destruct (Hax a) as (ax' & Hg & Hn).
    { apply list_elem_of_fmap. by exists (a, ax). }
    rewrite (getitem_elem _ _ _ Hnda Hin) in Hg. by simplify_eq.
  - intros p th Hin. rewrite Forall_forall in Hth.
    destruct (Hth p) as (th' & Hg & Hn & Hp).
    { apply list_elem_of_fmap. by exists (p, th). }
    rewrite (getitem_elem _ _ _ Hndt Hin) in Hg. by simplify_eq.
Qed.

(** Prebuilt data that passes the validation. *)
Lemma init_from_initial_data_witness :
  __init__ None None None (Some InitData.good) = inr InitData.built
  ∧ theorems InitData.built = init_theorems InitData.good
  ∧ _proof_check InitData.built Scenario.idi false = inr CTrue.
Proof.
  assert (__init__ None None None (Some InitData.good) = inr InitData.built)
    as H by (vm_compute; reflexivity).
  split; [exact H|].
  destruct (proj2 (init_from_initial_data None None None InitData.good)
                  _ H) as (_ & _ & Ht & _ & _ & _ & Hp).
  split; [exact Ht|]. apply (Hp "idi"). vm_compute. left.
Defined.

(** ** The trace *)

Lemma extends_refl (trace : list trace_line) : extends trace trace 0 [].
Proof. exists []. by rewrite app_nil_r. Qed.

Lemma extends_trans (tr1 tr2 tr3 : list trace_line) (n m k : nat)
    (hs1 hs2 hs : list nat) :
  extends tr1 tr2 n hs1 → extends tr2 tr3 m hs2 →
  k = n + m → hs = hs1 ++ hs2 →
  extends tr1 tr3 k hs.
Proof.
  intros (e1 & -> & <- & <-) (e2 & -> & <- & <-) -> ->. exists (e1 ++ e2).
  by rewrite app_assoc, length_app, omap_app.
Qed.

Lemma extends_one (trace : list trace_line) (line : trace_line) :
  extends trace (trace ++ [line]) 1
          (match step_header line with Some i => [i] | None => [] end).
Proof. exists [line]. split_and!; [done..|]. simpl. by destruct (step_header line). Qed.

Lemma pop_inv (stack rest : list string) (x : string) :
  pop stack = inr (x, rest) → stack = rest ++ [x].
Proof.
  unfold pop. destruct (last stack) as [y|] eqn:Hl; [|done].
  intros [= -> <-]. apply last_Some in Hl as [l' ->].
  by rewrite removelast_last.
Qed.

Lemma pop_n_inv (n : nat) (stack popped rest : list string) :
  pop_n n stack = inr (popped, rest) →
  stack = rest ++ reverse popped ∧ length popped = n.
Proof.
  revert stack popped. induction n as [|n IH]; intros stack popped; simpl.
  - intros [= <- <-]. split; [|done]. simpl. by rewrite app_nil_r.
  - destruct (pop stack) as [e|[x stack1]] eqn:Hp; [done|].
    destruct (pop_n n stack1) as [e|[xs stack2]] eqn:Hn; [done|].
    intros [= <- <-]. apply pop_inv in Hp as ->.
    apply IH in Hn as [-> <-]. split; [|reflexivity].
    by rewrite reverse_cons, app_assoc.
Qed.

Lemma unify_fold_trace (rule : proposition) (les : list (string * string))
    (subs0 subs : gmap string string) (tr0 tr : list trace_line) :
  foldM (unify_entry rule) les (subs0, tr0) = inr (subs, tr) →
  extends tr0 tr (length les) [].
Proof.
  revert subs0 tr0. induction les as [|[lbl expr] les IH]; intros subs0 tr0.
  - intros [= <- <-]. apply extends_refl.
  - rewrite foldM_cons. destruct (unify_entry rule (subs0, tr0) (lbl, expr))
      as [e|[subs1 tr1]] eqn:Hu; [done|].
    intros Hf. apply IH in Hf.
    assert (extends tr0 tr1 1 []) as H1.
    { unfold unify_entry in Hu. repeat case_match; simplify_eq.
      apply (extends_one tr0 (TrMatch _ _ _ _)). }
    by eapply extends_trans.
Qed.

Lemma match_hyps_fold_trace (rule : proposition) (subs : gmap string string)
    (args : list string) (ihs : list (nat * string))
    (tr0 tr : list trace_line) :
  foldM (hyp_entry rule subs args) ihs tr0 = inr tr →
  extends tr0 tr (length ihs) [].
Proof.
  revert tr0. induction ihs as [|[i h_lbl] ihs IH]; intros tr0.
  - intros [= <-]. apply extends_refl.
  - rewrite foldM_cons. destruct (hyp_entry rule subs args tr0 (i, h_lbl))
      as [e|tr1] eqn:Hu; [done|].
    intros Hf. apply IH in Hf.
    assert (extends tr0 tr1 1 []) as H1.
    { unfold hyp_entry in Hu. repeat case_match; simplify_eq.
      apply (extends_one tr0 (TrHypothesis _ _)). }
    by eapply extends_trans.
Qed.

Lemma length_enumerate {A : Type} (k : nat) (l : list A) :
  length (enumerate k l) = length l.
Proof. revert k. induction l; intros k; simpl; [done|]. by rewrite IHl. Qed.

Lemma apply_rule_trace (rule : proposition) (knd : kind) (idx : nat)
    (step : string) (stack stack' : list string)
    (trace trace' : list trace_line) :
  apply_rule rule knd idx step (stack, trace) = inr (stack', trace') →
  extends trace trace' (2 + length (prop_t rule) + length (prop_h rule))
          [idx].
Proof.
  unfold apply_rule. case_match; [done|].
  destruct (pop_n _ stack) as [e|[popped rest]] eqn:Hpop; [done|].
  destruct (unify _ _ _) as [e|[subs tr1]] eqn:Hu; [done|].
  destruct (distinct_check _ _) as [e|[]]; [done|].
  destruct (match_hyps _ _ _ _) as [e|tr2] eqn:Hm; [done|].
  intros [= <- <-].
  apply pop_n_inv in Hpop as [-> Hlen].
  apply unify_fold_trace in Hu. apply match_hyps_fold_trace in Hm.
  rewrite length_enumerate in Hm. unfold keys in *.
  rewrite length_zip, length_take, length_reverse, Hlen, length_app,
    !length_fmap in Hu.
  replace (_ `min` _) with (length (prop_t rule)) in Hu by lia.
  rewrite length_fmap in Hm.
  pose proof (extends_one trace (TrApply idx knd step (reverse popped)))
    as Ha.
  pose proof (extends_one tr2 (TrConclude (substitute subs (prop_a rule))))
    as Hc.
  pose proof (extends_trans _ _ _ _ _ _ _ _ _ Hm Hc eq_refl eq_refl) as H3.
  pose proof (extends_trans _ _ _ _ _ _ _ _ _ Hu H3 eq_refl eq_refl) as H2.
  eapply extends_trans; [exact Ha|exact H2|simpl; lia|done].
Qed.

Lemma proof_step_trace (self : FormalSystem) (thm : proposition)
    (idx : nat) (step : string) (stack stack' : list string)
    (trace trace' : list trace_line) :
  proof_step self thm (stack, trace) (idx, step) = inr (stack', trace') →
  extends trace trace' (step_lines self thm step) [idx].
Proof.
  unfold proof_step, step_lines, resolve_rule.
  destruct (has_key step (prop_t thm)); simpl.
  { case_match; [done|]. intros [= <- <-].
    apply (extends_one trace (TrPushType _ _ _)). }
  destruct (has_key step (prop_h thm)); simpl.
  { case_match; [done|]. intros [= <- <-].
    apply (extends_one trace (TrPushHyp _ _ _)). }
  destruct (has_key step (axioms self)).
  { case_match; [done|]. apply apply_rule_trace. }
  destruct (has_key step (theorems self)); [|done].
  case_match; [done|]. apply apply_rule_trace.
Qed.

Lemma run_fold_trace (self : FormalSystem) (thm : proposition)
    (steps : list string) (k : nat) (st st' : state) :
  foldM (proof_step self thm) (enumerate k steps) st = inr st' →
  extends st.2 st'.2 (sum_list (step_lines self thm <$> steps))
          (seq k (length steps)).
Proof.
  revert k st. induction steps as [|step steps IH]; intros k [stack trace].
  - intros [= <-]. apply extends_refl.
  - cbn [enumerate]. rewrite foldM_cons.
    destruct (proof_step self thm (stack, trace) (k, step))
      as [e|[stack1 trace1]] eqn:Hs; [done|].
    intros Hf. apply IH in Hf. apply proof_step_trace in Hs.
    by eapply extends_trans.
Qed.

(** C6, as stated, fails: the proof ['wps wid'] has two steps and is
    accepted, and its trace has five lines, the application of ['wid']
    giving three of them. *)
Lemma trace_longer_than_steps :
  proof_steps Scenario.by_wid = inr ["wps"; "wid"]
  ∧ _proof_check Scenario.with_wid Scenario.by_wid true
    = inr (CTrace [TrPushType 1 "wps" "wff ps";
                   TrApply 2 Kaxiom "wid" ["wff ps"];
                   TrMatch "wph" "wff" "ph" "ps";
                   TrConclude "wff ps";
                   TrDone "wff ps"]).
Proof. split; vm_compute; reflexivity. Qed.

Lemma unify_fold_lines (rule : proposition) (les : list (string * string))
    (subs0 subs : gmap string string) (tr0 tr : list trace_line) :
  foldM (unify_entry rule) les (subs0, tr0) = inr (subs, tr) →
  ∃ ms, tr = tr0 ++ ms ∧ Forall2 (match_line rule) les.*1 ms.
Proof.
  revert subs0 tr0. induction les as [|[lbl expr] les IH]; intros subs0 tr0.
  - intros [= <- <-]. exists []. split; [by rewrite app_nil_r|constructor].
  - rewrite foldM_cons.
    destruct (unify_entry rule (subs0, tr0) (lbl, expr))
      as [e|[subs1 tr1]] eqn:Hu; [done|].
    intros Hf. apply IH in Hf as (ms & -> & Hms).
    unfold unify_entry in Hu.
    destruct (getitem lbl (prop_t rule)) as [e|tv] eqn:Hg; [done|].
    destruct (split tv) as [|pat_type [|var [|? ?]]] eqn:Hs; try done.
    repeat case_match; simplify_eq.
    eexists (_ :: ms). split; [by rewrite <- app_assoc|].
    constructor; [|done]. by eexists tv, pat_type, var, _.
Qed.

Lemma match_hyps_fold_lines (rule : proposition)
    (subs : gmap string string) (args : list string) (hk : list string)
    (k : nat) (tr0 tr : list trace_line) :
  foldM (hyp_entry rule subs args) (enumerate k hk) tr0 = inr tr →
  ∃ hs, tr = tr0 ++ hs ∧ Forall2 hypothesis_line hk hs.
Proof.
  revert k tr0. induction hk as [|h hk IH]; intros k tr0.
  - intros [= <-]. exists []. split; [by rewrite app_nil_r|constructor].
  - cbn [enumerate]. rewrite foldM_cons.
    destruct (hyp_entry rule subs args tr0 (k, h)) as [e|tr1] eqn:Hu;
      [done|].
    intros Hf. apply IH in Hf as (hs & -> & Hhs).
    unfold hyp_entry in Hu. repeat case_match; simplify_eq.
    eexists (_ :: hs). split; [by rewrite <- app_assoc|].
    constructor; [|done]. by eexists.
Qed.

Lemma apply_rule_lines (rule : proposition) (knd : kind) (idx : nat)
    (step : string) (stack stack' : list string)
    (trace trace' : list trace_line) :
  apply_rule rule knd idx step (stack, trace) = inr (stack', trace') →
  ∃ args ms hs inst_a,
    length args = length (prop_t rule) + length (prop_h rule)
    ∧ trace' = trace ++ TrApply idx knd step args
                        :: ms ++ hs ++ [TrConclude inst_a]
    ∧ Forall2 (match_line rule) (keys (prop_t rule)) ms
    ∧ Forall2 hypothesis_line (keys (prop_h rule)) hs.
Proof.
  unfold apply_rule. case_match; [done|].
  destruct (pop_n _ stack) as [e|[popped rest]] eqn:Hpop; [done|].
  destruct (unify _ _ _) as [e|[subs tr1]] eqn:Hu; [done|].
  destruct (distinct_check _ _) as [e|[]]; [done|].
  destruct (match_hyps _ _ _ _) as [e|tr2] eqn:Hm; [done|].
  intros [= <- <-].
  apply pop_n_inv in Hpop as [-> Hlen].
  assert (length (reverse popped)
          = length (prop_t rule) + length (prop_h rule)) as Hargs.
  { rewrite length_reverse, Hlen, length_app. unfold keys.
    by rewrite !length_fmap. }
  apply unify_fold_lines in Hu as (ms & -> & Hms).
  apply match_hyps_fold_lines in Hm as (hs & -> & Hhs).
  rewrite fst_zip in Hms.
  2:{ rewrite length_take, Hargs. unfold keys. rewrite length_fmap. lia. }
  exists (reverse popped), ms, hs, (substitute subs (prop_a rule)).
  split_and!; [done| |done..].
  by rewrite <- !app_assoc.
Qed.

Lemma proof_step_segment (self : FormalSystem) (thm : proposition)
    (idx : nat) (step : string) (stack stack' : list string)
    (trace trace' : list trace_line) :
  proof_step self thm (stack, trace) (idx, step) = inr (stack', trace') →
  ∃ seg, trace' = trace ++ seg ∧ step_segment self thm idx step seg.
Proof.
  unfold proof_step, step_segment, resolve_rule.
  destruct (has_key step (prop_t thm)).
  { destruct (getitem step (prop_t thm)) as [e|expr]; [done|].
    intros [= <- <-]. eexists. split; [done|]. by exists expr. }
  destruct (has_key step (prop_h thm)).
  { destruct (getitem step (prop_h thm)) as [e|expr]; [done|].
    intros [= <- <-]. eexists. split; [done|]. by exists expr. }
  destruct (has_key step (axioms self)).
  { destruct (getitem step (axioms self)) as [e|rule]; [done|].
    intros (args & ms & hs & inst_a & Hlen & -> & Hms & Hhs)%apply_rule_lines.
    eexists. split; [done|]. by exists rule, args, ms, hs, inst_a. }
  destruct (has_key step (theorems self)); [|done].
  destruct (getitem step (theorems self)) as [e|rule]; [done|].
  intros (args & ms & hs & inst_a & Hlen & -> & Hms & Hhs)%apply_rule_lines.
  eexists. split; [done|]. by exists rule, args, ms, hs, inst_a.
Qed.

Lemma run_fold_segments (self : FormalSystem) (thm : proposition)
    (steps : list string) (k : nat) (st st' : state) :
  foldM (proof_step self thm) (enumerate k steps) st = inr st' →
  ∃ segs, st'.2 = st.2 ++ concat segs
          ∧ Forall2 (λ ist seg, step_segment self thm ist.1 ist.2 seg)
                    (enumerate k steps) segs.
Proof.
  revert k st. induction steps as [|step steps IH]; intros k [stack trace].
  - intros [= <-]. exists []. simpl. split; [by rewrite app_nil_r|constructor].
  - cbn [enumerate]. rewrite foldM_cons.
    destruct (proof_step self thm (stack, trace) (k, step))
      as [e|[stack1 trace1]] eqn:Hs; [done|].
    intros Hf. apply IH in Hf as (segs & Heq & Hsegs).
    apply proof_step_segment in Hs as (seg & -> & Hseg).
    exists (seg :: segs). simpl in *. split.
    + by rewrite Heq, <- app_assoc.
    + by constructor.
Qed.

Lemma detail_lines_no_header {A : Type} (P : A → trace_line → Prop)
    (ks : list A) (ls : list trace_line) :
  (∀ k line, P k line → step_header line = None) →
  Forall2 P ks ls → omap step_header ls = [].
Proof.
  intros HP. induction 1 as [|k line ks ls Hk _ IH]; [done|].
  simpl. by rewrite (HP _ _ Hk).
Qed.

(** A segment starts with the header of its step, holds no other header,
    and has [step_lines] lines. *)
Lemma step_segment_header (self : FormalSystem) (thm : proposition)
    (idx : nat) (step : string) (seg : list trace_line) :
  step_segment self thm idx step seg →
  ∃ header details,
    seg = header :: details ∧ step_header header = Some idx
    ∧ omap step_header details = []
    ∧ length seg = step_lines self thm step.
Proof.
  unfold step_segment, step_lines.
  destruct (has_key step (prop_t thm)).
  { intros (expr & _ & ->). by eexists _, []. }
  destruct (has_key step (prop_h thm)).
  { intros (expr & _ & ->). by eexists _, []. }
  intros (rule & args & ms & hs & inst_a & -> & _ & -> & Hms & Hhs).
  eexists _, _. split_and!; [done..| |]; rewrite ?omap_app.
  - apply detail_lines_no_header in Hms as ->, Hhs as ->; [done| |].
    + by intros k line (actual & ->).
    + by intros k line (tv & pat_type & var & val & _ & _ & ->).
  - apply Forall2_length in Hms, Hhs. unfold keys in *.
    rewrite length_fmap in Hms, Hhs. simpl.
    rewrite !length_app, <- Hms, <- Hhs. simpl. lia.
Qed.

(** The order of the lines matters: the lines of the trace of ['wps wid']
    with the details of the second step put before its header are not a
    concatenation of segments. *)
Lemma details_follow_their_header :
  ¬ ∃ segs,
      [TrPushType 1 "wps" "wff ps"; TrMatch "wph" "wff" "ph" "ps";
       TrConclude "wff ps"; TrApply 2 Kaxiom "wid" ["wff ps"];
       TrDone "wff ps"]
      = concat segs ++ [TrDone (prop_a Scenario.by_wid)]
      ∧ Forall2 (λ ist seg,
                   step_segment Scenario.with_wid Scenario.by_wid
                                ist.1 ist.2 seg)
                (enumerate 1 ["wps"; "wid"]) segs.
Proof.
  intros (segs & Heq & Hall).
  cbn [enumerate] in Hall.
  apply Forall2_cons_inv_l in Hall as (s1 & segs' & H1 & Hall & ->).
  apply Forall2_cons_inv_l in Hall as (s2 & segs'' & H2 & Hall & ->).
  apply Forall2_nil_inv_l in Hall as ->.
  apply step_segment_header in H1 as (h1 & d1 & -> & _ & _ & Hl1).
  apply step_segment_header in H2 as (h2 & d2 & -> & Hh2 & _ & Hl2).
  vm_compute in Hl1, Hl2.
  destruct d1; [|done]. simpl in Heq.
  injection Heq as <- <- Heq. done.
Qed.

(** C6, amended. The trace of a successful run is the concatenation, in
    the order of the steps, of one segment per executed step, followed by
    one line reporting the assertion. The segment of a push step is its
    header line "Step idx: ..." alone; the segment of a step that applies a
    rule [R] is its header line followed by one line per typing entry of
    [R], one line per hypothesis of [R] and one conclusion line. The
    headers are numbered from 1, so the trace holds one header per step
    and, for the trace as a whole, [step_lines] lines per step and one
    more. *)
Theorem trace_shape (self : FormalSystem) (thm : proposition)
    (trace : list trace_line) :
  _proof_check self thm true = inr (CTrace trace) →
  ∃ steps,
    proof_steps thm = inr steps
    ∧ omap step_header trace = seq 1 (length steps)
    ∧ length trace = sum_list (step_lines self thm <$> steps) + 1
    ∧ last trace = Some (TrDone (prop_a thm))
    ∧ ∃ segs,
        trace = concat segs ++ [TrDone (prop_a thm)]
        ∧ Forall2 (λ ist seg, step_segment self thm ist.1 ist.2 seg)
                  (enumerate 1 steps) segs.
Proof.
  intros H. apply proof_check_inv in H as (tr & Hrun & [= ->]).
  unfold run_steps in Hrun.
  destruct (proof_steps thm) as [e|steps]; [done|]. exists steps.
  pose proof (run_fold_segments _ _ _ _ _ _ Hrun) as (segs & Hsegs & Hall).
  apply run_fold_trace in Hrun as (ext & Heq & Hlen & Hhd).
  simpl in Heq, Hsegs. subst tr. split_and!.
  - done.
  - by rewrite omap_app, Hhd, app_nil_r.
  - rewrite length_app, Hlen. simpl. lia.
  - by rewrite last_snoc.
  - exists segs. by rewrite Hsegs.
Qed.

(** The trace of the proof ['wps wid']. *)
Lemma trace_shape_witness :
  ∃ steps,
    proof_steps Scenario.by_wid = inr steps
    ∧ omap step_header
        [TrPushType 1 "wps" "wff ps"; TrApply 2 Kaxiom "wid" ["wff ps"];
         TrMatch "wph" "wff" "ph" "ps"; TrConclude "wff ps";
         TrDone "wff ps"]
      = seq 1 (length steps)
    ∧ 5 = sum_list (step_lines Scenario.with_wid Scenario.by_wid <$> steps) + 1
    ∧ Some (TrDone "wff ps") = Some (TrDone (prop_a Scenario.by_wid))
    ∧ ∃ segs,
        [TrPushType 1 "wps" "wff ps"; TrApply 2 Kaxiom "wid" ["wff ps"];
         TrMatch "wph" "wff" "ph" "ps"; TrConclude "wff ps";
         TrDone "wff ps"]
        = concat segs ++ [TrDone (prop_a Scenario.by_wid)]
        ∧ Forall2 (λ ist seg,
                     step_segment Scenario.with_wid Scenario.by_wid
                                  ist.1 ist.2 seg)
                  (enumerate 1 steps) segs.
Proof.
  apply (trace_shape Scenario.with_wid Scenario.by_wid). vm_compute.
  reflexivity.
Defined.

(** ** The variables of a normalized rule *)

Lemma check_t_entry_inv (self : FormalSystem) (prop : proposition)
    (nn0 vs0 nn1 vs1 : list string) (k : string) :
  check_t_entry self prop (nn0, vs0) k = inr (nn1, vs1) →
  ∃ x, declares prop k x ∧ (k ∉ nn0) ∧ (nn1 = (nn0 ++ [k]) ++ [x])
       ∧ (vs1 = vs0 ++ [x]).
Proof.
  unfold check_t_entry, assert, elem. intros H.
  repeat case_match; simplify_eq.
  eexists. split_and!; [by eexists _, _| |done..].
  match goal with H : negb (bool_decide (k ∈ nn0)) = true |- _ =>
    apply negb_true_iff, bool_decide_eq_false in H end.
  done.
Qed.

Lemma check_t_fold (self : FormalSystem) (prop : proposition)
    (ks nn0 vs0 nn vs : list string) :
  foldM (check_t_entry self prop) ks (nn0, vs0) = inr (nn, vs) →
  ∃ xs, vs = vs0 ++ xs ∧ Forall2 (declares prop) ks xs
        ∧ NoDup ks ∧ (∀ k, k ∈ ks → k ∉ nn0).
Proof.
  revert nn0 vs0. induction ks as [|k ks IH]; intros nn0 vs0.
  - intros [= <- <-]. exists []. rewrite app_nil_r.
    split_and!; [done|constructor|constructor|].
    intros k Hk. by apply elem_of_nil in Hk.
  - rewrite foldM_cons.
    destruct (check_t_entry self prop (nn0, vs0) k) as [e|[nn1 vs1]] eqn:He;
      [done|].
    intros Hf. apply check_t_entry_inv in He as (x & Hx & Hk & -> & ->).
    apply IH in Hf as (xs & -> & Hall & Hnd & Hfresh).
    exists (x :: xs). split_and!.
    + by rewrite <- app_assoc.
    + by constructor.
    + constructor; [|done]. intros Hin. apply (Hfresh _ Hin).
      apply elem_of_app. left. apply elem_of_app. right. by left.
    + intros k' Hk' Hin. apply elem_of_cons in Hk' as [->|Hk']; [done|].
      apply (Hfresh _ Hk'). apply elem_of_app. left. apply elem_of_app.
      by left.
Qed.

Lemma unify_fold_dom (rule : proposition) (les : list (string * string))
    (xs : list string) (subs0 subs : gmap string string)
    (tr0 tr : list trace_line) :
  foldM (unify_entry rule) les (subs0, tr0) = inr (subs, tr) →
  Forall2 (declares rule) les.*1 xs →
  dom subs = dom subs0 ∪ list_to_set xs.
Proof.
  revert xs subs0 tr0. induction les as [|[lbl expr] les IH];
    intros xs subs0 tr0.
  - intros [= <- <-] Hall. apply Forall2_nil_inv_l in Hall as ->.
    simpl. by rewrite union_empty_r_L.
  - rewrite foldM_cons.
    destruct (unify_entry rule (subs0, tr0) (lbl, expr))
      as [e|[subs1 tr1]] eqn:Hu; [done|].
    intros Hf Hall. simpl in Hall.
    apply Forall2_cons_inv_l in Hall as (x & xs' & Hx & Hall & ->).
    rewrite (IH _ _ _ Hf Hall).
    destruct Hx as (tv & c & Hg & Hs).
    unfold unify_entry in Hu. rewrite Hg, Hs in Hu.
    repeat case_match; simplify_eq. rewrite dom_insert_L. simpl.
    apply set_eq. intros y. rewrite !elem_of_union, elem_of_singleton. tauto.
Qed.

Lemma check_d_fold (self : FormalSystem) (nn vs hn : list string)
    (ds : dict string) (dn0 dn : list string) :
  foldM (check_d_entry self nn vs hn) ds dn0 = inr dn →
  Forall (distinct_pair vs) ds.
Proof.
  revert dn0. induction ds as [|[k v] ds IH]; intros dn0; [by constructor|].
  rewrite foldM_cons.
  destruct (check_d_entry self nn vs hn dn0 (k, v)) as [e|dn1] eqn:He;
    [done|].
  intros Hf. constructor; [|by eapply IH].
  unfold check_d_entry, assert, elem in He.
  repeat case_match; simplify_eq.
  match goal with H : _ && _ && _ = true |- _ =>
    apply andb_true_iff in H as [H Hne];
    apply andb_true_iff in H as [H1 H2] end.
  apply bool_decide_eq_true in H1, H2.
  apply negb_true_iff, bool_decide_eq_false in Hne.
  by eexists _, _.
Qed.

(** What the normalizer has checked of a proposition it accepts. *)
Lemma check_inv (self : FormalSystem) (prop prop' : proposition) :
  _check_ self prop = inr prop' →
  ∃ new_names variables,
    check_t self prop = inr (new_names, variables)
    ∧ Forall2 (declares prop) (keys (prop_t prop)) variables
    ∧ NoDup (keys (prop_t prop))
    ∧ Forall (distinct_pair variables) (prop_d prop).
Proof.
  unfold _check_. intros H.
  destruct (check_t self prop) as [e|[nn vs]] eqn:Ht; [done|].
  exists nn, vs. split; [done|].
  apply check_t_fold in Ht as (xs & -> & Hall & Hnd & _). simpl.
  split_and!; [done..|].
  repeat case_match; simplify_eq. by eapply check_d_fold.
Qed.

(** With pairwise different labels, the variable declared under a label is
    the second token of the entry that carries the label. *)
Lemma declares_entries (prop : proposition) (vs : list string) :
  NoDup (keys (prop_t prop)) →
  Forall2 (declares prop) (keys (prop_t prop)) vs →
  Forall2 (λ kv x, ∃ c, split kv.2 = [c; x]) (prop_t prop) vs.
Proof.
  intros Hnd Hall. apply Forall2_same_length_lookup in Hall as [Hlen Hall].
  apply Forall2_same_length_lookup. split.
  - unfold keys in Hlen. by rewrite length_fmap in Hlen.
  - intros i [k v] x Hkv Hx.
    destruct (Hall i k x) as (tv & c & Hg & Hs); [|done|].
    + unfold keys. by rewrite list_lookup_fmap, Hkv.
    + apply list_elem_of_lookup_2 in Hkv.
      rewrite (getitem_elem _ _ _ Hnd Hkv) in Hg. simplify_eq. by exists c.
Qed.

(** The distinct entries of an accepted proposition hold two tokens each. *)
Lemma check_d_shaped (self : FormalSystem) (prop prop' : proposition) :
  _check_ self prop = inr prop' →
  Forall (λ kv, length (split kv.2) = 2) (prop_d prop).
Proof.
  intros H. apply check_inv in H as (nn & vs & _ & _ & _ & Hd).
  eapply Forall_impl; [exact Hd|]. intros kv (v1 & v2 & -> & _). done.
Qed.

(** C8. When a rule accepted by the normalizer is applied and the type
    unification succeeds, the substitution binds exactly the variables
    declared in the typing block of the rule (the second tokens of its
    entries, which the normalizer collects in [variables]); each distinct
    entry of the rule names two of them, so both variables of every distinct
    entry are bound and the distinct check never skips an entry. *)
Theorem substitution_total (self : FormalSystem) (rule rule' : proposition)
    (new_names variables stack popped rest : list string)
    (trace trace' : list trace_line) (subs : gmap string string) :
  _check_ self rule = inr rule' →
  check_t self rule = inr (new_names, variables) →
  pop_n (length (keys (prop_t rule) ++ keys (prop_h rule))) stack
  = inr (popped, rest) →
  unify rule (reverse popped) trace = inr (subs, trace') →
  Forall2 (λ kv x, ∃ c, split kv.2 = [c; x]) (prop_t rule) variables
  ∧ dom subs = list_to_set variables
  ∧ ∀ d_lbl vpair,
      (d_lbl, vpair) ∈ prop_d rule →
      ∃ v1 v2 e1 e2,
        split vpair = [v1; v2] ∧ v1 ∈ variables ∧ v2 ∈ variables
        ∧ subs !! v1 = Some e1 ∧ subs !! v2 = Some e2
        ∧ distinct_entry subs tt (d_lbl, vpair)
          = if bool_decide (common_tokens e1 e2 ≠ ∅)
            then inl (Raised DistinctViolation) else inr tt.
Proof.
  intros Hn Ht Hpop Hu.
  apply check_inv in Hn as (nn & vs & Ht' & Hdecl & Hnd & Hd).
  rewrite Ht in Ht'. simplify_eq.
  split; [by apply declares_entries|].
  apply pop_n_inv in Hpop as [-> Hlen].
  assert (dom subs = list_to_set vs) as Hdom.
  { unfold unify in Hu. eapply unify_fold_dom in Hu.
    - by rewrite Hu, dom_empty_L, union_empty_l_L.
    - rewrite fst_zip; [done|].
      rewrite length_take, length_reverse, Hlen, length_app. lia. }
  split; [done|]. intros d_lbl vpair Hin.
  rewrite Forall_forall in Hd.
  destruct (Hd _ Hin) as (v1 & v2 & Hs & H1 & H2 & Hne). simpl in Hs.
  assert (is_Some (subs !! v1)) as [e1 He1].
  { apply elem_of_dom. rewrite Hdom. by apply elem_of_list_to_set. }
  assert (is_Some (subs !! v2)) as [e2 He2].
  { apply elem_of_dom. rewrite Hdom. by apply elem_of_list_to_set. }
  exists v1, v2, e1, e2. split_and!; try done.
  unfold distinct_entry. by rewrite Hs, He1, He2.
Qed.

(** ** The exceptions of a rule application *)

Lemma foldM_error {A S : Type} (P : exn → Prop) (f : S → A → res S)
    (l : list A) (s : S) (e : exn) :
  (∀ s x e, f s x = inl e → P e) → foldM f l s = inl e → P e.
Proof.
  intros Hf. revert s. induction l as [|x l IH]; intros s; [done|].
  rewrite foldM_cons. destruct (f s x) as [e'|s'] eqn:Hx.
  - intros [= <-]. by eapply Hf.
  - apply IH.
Qed.

Lemma index_error {A : Type} (l : list A) (i : nat) (e : exn) :
  index l i = inl e → e = IndexError.
Proof. unfold index. case_match; congruence. Qed.

Lemma getitem_error {V : Type} (k : string) (m : dict V) (e : exn) :
  getitem k m = inl e → e = KeyError.
Proof.
  induction m as [|[k' v] m IH]; simpl; [congruence|]. by case_match.
Qed.

Lemma pop_n_ok (n : nat) (stack : list string) :
  n ≤ length stack → ∃ popped rest, pop_n n stack = inr (popped, rest).
Proof.
  revert stack. induction n as [|n IH]; intros stack Hle; simpl; [eauto|].
  destruct (decide (stack = [])) as [->|Hne]; [simpl in Hle; lia|].
  apply exists_last in Hne as (rest & x & ->).
  unfold pop. rewrite last_snoc, removelast_last.
  rewrite length_app in Hle. simpl in Hle.
  destruct (IH rest) as (popped & rest' & ->); [lia|]. eauto.
Qed.

(** Name the exception of a failed lookup, then search the list. *)
Ltac classify_error :=
  repeat match goal with
         | H : getitem _ _ = inl _ |- _ => apply getitem_error in H as ->
         | H : index _ _ = inl _ |- _ => apply index_error in H as ->
         end;
  simplify_eq; rewrite ?elem_of_cons; tauto.

Lemma unify_error (rule : proposition) (args : list string)
    (trace : list trace_line) (e : exn) :
  unify rule args trace = inl e →
  e ∈ [KeyError; UnpackError; IndexError; Raised TypeMismatch].
Proof.
  unfold unify.
  apply (foldM_error
           (λ e, e ∈ [KeyError; UnpackError; IndexError; Raised TypeMismatch])).
  intros [subs tr] [lbl expr] e'. unfold unify_entry.
  intros H. repeat case_match; classify_error.
Qed.

Lemma distinct_check_error (rule : proposition) (subs : gmap string string)
    (e : exn) :
  distinct_check rule subs = inl e →
  e ∈ [UnpackError; Raised DistinctViolation].
Proof.
  unfold distinct_check.
  apply (foldM_error (λ e, e ∈ [UnpackError; Raised DistinctViolation])).
  intros [] [d_lbl vpair] e'. unfold distinct_entry.
  intros H. repeat case_match; classify_error.
Qed.

Lemma match_hyps_error (rule : proposition) (subs : gmap string string)
    (args : list string) (trace : list trace_line) (e : exn) :
  match_hyps rule subs args trace = inl e →
  e ∈ [KeyError; IndexError; Raised HypothesisMismatch].
Proof.
  unfold match_hyps.
  apply (foldM_error
           (λ e, e ∈ [KeyError; IndexError; Raised HypothesisMismatch])).
  intros tr [i h_lbl] e'. unfold hyp_entry.
  intros H. repeat case_match; classify_error.
Qed.

Lemma apply_rule_error (rule : proposition) (knd : kind) (idx : nat)
    (step : string) (st : state) (e : exn) :
  apply_rule rule knd idx step st = inl e →
  e ∈ [Raised StackUnderflow; KeyError; UnpackError; IndexError;
       Raised TypeMismatch; Raised DistinctViolation;
       Raised HypothesisMismatch].
Proof.
  destruct st as [stack trace]. unfold apply_rule.
  destruct (length stack <? _) eqn:Hlen; [intros [= <-]; left|].
  apply Nat.ltb_ge in Hlen.
  destruct (pop_n_ok _ _ Hlen) as (popped & rest & ->).
  destruct (unify _ _ _) as [e1|[subs tr1]] eqn:Hu.
  { intros [= <-]. apply unify_error in Hu. revert Hu. rewrite !elem_of_cons. tauto. }
  destruct (distinct_check _ _) as [e1|[]] eqn:Hd.
  { intros [= <-]. apply distinct_check_error in Hd. revert Hd. rewrite !elem_of_cons.
    tauto. }
  destruct (match_hyps _ _ _ _) as [e1|tr2] eqn:Hm; [|done].
  intros [= <-]. apply match_hyps_error in Hm. revert Hm. rewrite !elem_of_cons.
  tauto.
Qed.

(** ** The distinct check *)

Lemma common_tokens_nonempty (e1 e2 : string) :
  common_tokens e1 e2 ≠ ∅ ↔ ∃ tok, tok ∈ split e1 ∧ tok ∈ split e2.
Proof.
  unfold common_tokens. split.
  - intros Hne. apply set_choose_L in Hne as [tok Htok].
    apply elem_of_intersection in Htok as [H1 H2].
    apply elem_of_list_to_set in H1, H2. eauto.
  - intros (tok & H1 & H2) Hempty.
    apply (not_elem_of_empty (C := gset string) tok). rewrite <- Hempty.
    apply elem_of_intersection. by split; apply elem_of_list_to_set.
Qed.

Lemma distinct_entry_spec (subs : gmap string string) (kv : string * string) :
  length (split kv.2) = 2 →
  (distinct_entry subs tt kv = inl (Raised DistinctViolation)
   ∧ violates subs kv)
  ∨ (distinct_entry subs tt kv = inr tt ∧ ¬ violates subs kv).
Proof.
  destruct kv as [d_lbl vpair]. unfold distinct_entry, violates. simpl.
  destruct (split vpair) as [|v1 [|v2 [|? ?]]]; try done. intros _.
  destruct (subs !! v1) as [e1|] eqn:H1; cycle 1.
  { right. split; [done|]. intros (? & ? & ? & ? & ? & ? & ?).
    simplify_eq. }
  destruct (subs !! v2) as [e2|] eqn:H2; cycle 1.
  { right. split; [done|]. intros (? & ? & ? & ? & ? & ? & ? & ?).
    simplify_eq. }
  case_bool_decide as Hc.
  - left. split; [done|]. apply common_tokens_nonempty in Hc.
    by exists v1, v2, e1, e2.
  - right. split; [done|]. intros (? & ? & ? & ? & ? & ? & ? & Htok).
    simplify_eq. apply common_tokens_nonempty in Htok. by apply Htok.
Qed.

Lemma distinct_check_spec (rule : proposition) (subs : gmap string string) :
  Forall (λ kv, length (split kv.2) = 2) (prop_d rule) →
  (distinct_check rule subs = inl (Raised DistinctViolation)
   ∧ Exists (violates subs) (prop_d rule))
  ∨ (distinct_check rule subs = inr tt
     ∧ Forall (λ kv, ¬ violates subs kv) (prop_d rule)).
Proof.
  unfold distinct_check. induction (prop_d rule) as [|kv ds IH].
  - intros _. right. split; [done|constructor].
  - rewrite Forall_cons. intros [Hkv Hds]. rewrite foldM_cons.
    destruct (distinct_entry_spec subs kv Hkv) as [[-> Hv]|[-> Hv]].
    + left. split; [done|]. by left.
    + destruct (IH Hds) as [[-> Hex]|[-> Hall]].
      * left. split; [done|]. by right.
      * right. split; [done|]. by constructor.
Qed.

(** C5. When a rule whose distinct entries each hold two tokens (as those of
    every rule accepted by the normalizer do, [check_d_shaped]) is applied and the type unification has produced
    the substitution [subs], the application fails with [DistinctViolation]
    exactly when, for some distinct entry [(v1, v2)] of the rule with both
    [v1] and [v2] bound in [subs], the token sets of [subs[v1]] and
    [subs[v2]] intersect; an entry with an unbound variable is skipped. *)
Theorem distinct_violation_iff (rule : proposition) (knd : kind) (idx : nat)
    (step : string) (stack popped rest : list string)
    (trace trace' : list trace_line) (subs : gmap string string) :
  Forall (λ kv, length (split kv.2) = 2) (prop_d rule) →
  pop_n (length (keys (prop_t rule) ++ keys (prop_h rule))) stack
  = inr (popped, rest) →
  unify rule (reverse popped)
        (trace ++ [TrApply idx knd step (reverse popped)])
  = inr (subs, trace') →
  (apply_rule rule knd idx step (stack, trace)
   = inl (Raised DistinctViolation)
   ↔ ∃ d_lbl vpair v1 v2 e1 e2,
       (d_lbl, vpair) ∈ prop_d rule ∧ split vpair = [v1; v2]
       ∧ subs !! v1 = Some e1 ∧ subs !! v2 = Some e2
       ∧ ∃ tok, tok ∈ split e1 ∧ tok ∈ split e2)
  ∧ ∀ d_lbl vpair v1 v2,
      split vpair = [v1; v2] →
      subs !! v1 = None ∨ subs !! v2 = None →
      distinct_entry subs tt (d_lbl, vpair) = inr tt.
Proof.
  intros Hshape Hpop Hu. split.
  - unfold apply_rule.
    pose proof (pop_n_inv _ _ _ _ Hpop) as [Hstack Hlen].
    rewrite (proj2 (Nat.ltb_ge _ _))
      by (rewrite <- Hlen, Hstack, length_app, length_reverse; lia).
    rewrite Hpop, Hu.
    destruct (distinct_check_spec rule subs Hshape) as [[-> Hex]|[-> Hall]].
    + split; [|done]. intros _. apply Exists_exists in Hex
        as ([d_lbl vpair] & Hin & v1 & v2 & e1 & e2 & Hv).
      by exists d_lbl, vpair, v1, v2, e1, e2.
    + split.
      * destruct (match_hyps _ _ _ _) as [e|tr2] eqn:Hm; [|done].
        intros [= ->]. apply match_hyps_error in Hm. revert Hm.
        rewrite !elem_of_cons, elem_of_nil. intros [?|[?|[?|[]]]]; done.
      * intros (d_lbl & vpair & v1 & v2 & e1 & e2 & Hin & Hv).
        rewrite Forall_forall in Hall. destruct (Hall _ Hin).
        by exists v1, v2, e1, e2.
  - intros d_lbl vpair v1 v2 Hs Hnone. unfold distinct_entry. rewrite Hs.
    destruct Hnone as [-> | ->]; [done|]. by destruct (subs !! v1).
Qed.

(** ** Resolution of a step label *)

Lemma has_key_setitem {V : Type} (k : string) (v : V) (m : dict V) :
  has_key k (setitem k v m) = true ∧ getitem k (setitem k v m) = inr v.
Proof.
  unfold has_key, keys. rewrite bool_decide_eq_true.
  induction m as [|[k' v'] m [IH1 IH2]]; simpl.
  - rewrite bool_decide_eq_true_2 by done. split; [left|done].
  - destruct (decide (k = k')) as [->|Hne].
    + rewrite bool_decide_eq_true_2 by done. simpl.
      rewrite bool_decide_eq_true_2 by done. split; [left|done].
    + rewrite bool_decide_eq_false_2 by done. simpl.
      rewrite bool_decide_eq_false_2 by done. split; [by right|done].
Qed.

Lemma proof_step_unknown_iff (self : FormalSystem) (thm : proposition)
    (st : state) (idx : nat) (step : string) :
  proof_step self thm st (idx, step) = inl (Raised UnknownStep)
  ↔ unresolved self thm step.
Proof.
  unfold proof_step, unresolved. destruct st as [stack trace].
  destruct (has_key step (prop_t thm)) eqn:Ht.
  { destruct (getitem_has_key _ _ Ht) as (v & -> & _).
    split; [done|]. by intros (? & _). }
  destruct (has_key step (prop_h thm)) eqn:Hh.
  { destruct (getitem_has_key _ _ Hh) as (v & -> & _).
    split; [done|]. by intros (_ & ? & _). }
  destruct (has_key step (axioms self)) eqn:Ha.
  { destruct (getitem_has_key _ _ Ha) as (v & -> & _).
    split; [|by intros (_ & _ & ? & _)]. intros H%apply_rule_error.
    revert H. rewrite !elem_of_cons, elem_of_nil.
    intros [?|[?|[?|[?|[?|[?|[?|[]]]]]]]]; done. }
  destruct (has_key step (theorems self)) eqn:Hth; [|done].
  destruct (getitem_has_key _ _ Hth) as (v & -> & _).
  split; [|by intros (_ & _ & _ & ?)]. intros H%apply_rule_error.
  revert H. rewrite !elem_of_cons, elem_of_nil.
  intros [?|[?|[?|[?|[?|[?|[?|[]]]]]]]]; done.
Qed.

Lemma run_unresolved (self : FormalSystem) (thm : proposition)
    (steps : list string) (q : string) (k : nat) (st : state) :
  q ∈ steps → unresolved self thm q →
  ∃ e, foldM (proof_step self thm) (enumerate k steps) st = inl e.
Proof.
  intros Hin Hq. revert k st.
  induction steps as [|step steps IH]; intros k st.
  - by apply elem_of_nil in Hin.
  - cbn [enumerate]. rewrite foldM_cons.
    destruct (proof_step self thm st (k, step)) as [e|st'] eqn:Hs; [eauto|].
    apply elem_of_cons in Hin as [->|Hin]; [|by apply IH].
    apply (proof_step_unknown_iff self thm st k) in Hq. congruence.
Qed.

Lemma add_theorem_rejected (self : FormalSystem) (label : string)
    (thm : proposition) (e : exn) :
  _proof_check self thm false = inl e →
  ∃ e', add_theorem label thm self = (inl e', self).
Proof.
  intros Hp. unfold_M. destruct (in_namespace self label); [eauto|].
  destruct (_check_ self thm) as [e'|thm'] eqn:Hc; [eauto|].
  apply check_returns_input in Hc as ->. rewrite Hp. eauto.
Qed.

Lemma add_theorem_inv (self self' : FormalSystem) (label : string)
    (thm : proposition) :
  add_theorem label thm self = (inr tt, self') →
  self' = set_theorems (setitem label thm (theorems self)) self
  ∧ _check_ self thm = inr thm
  ∧ _proof_check self thm false = inr CTrue.
Proof.
  unfold_M. intros H. repeat case_match; simplify_eq.
  match goal with H : _check_ _ _ = inr _ |- _ =>
    pose proof (check_returns_input _ _ _ H) as -> end.
  split_and!; [done..|].
  match goal with H : _proof_check _ _ false = inr ?r |- _ =>
    destruct (proof_check_inv _ _ _ _ H) as (? & _ & ->) end. done.
Qed.

(** C7. A step label is resolved as a typing label of the theorem, else as
    a hypothesis label of the theorem, else as an axiom, else as a theorem
    of the system, and the step fails with [UnknownStep] exactly when the
    label is none of the four. Hence a theorem whose proof has a step [q]
    that is none of the four is rejected by [add_theorem]; once
    [add_theorem(q, Q)] has been accepted, the step [q] applies [Q]. *)
Theorem step_resolution (self : FormalSystem) (thm : proposition) :
  (∀ idx step stack trace,
     (has_key step (prop_t thm) = true →
      ∃ expr, getitem step (prop_t thm) = inr expr
              ∧ proof_step self thm (stack, trace) (idx, step)
                = inr (stack ++ [expr],
                       trace ++ [TrPushType idx step expr]))
     ∧ (has_key step (prop_t thm) = false →
        has_key step (prop_h thm) = true →
        ∃ expr, getitem step (prop_h thm) = inr expr
                ∧ proof_step self thm (stack, trace) (idx, step)
                  = inr (stack ++ [expr],
                         trace ++ [TrPushHyp idx step expr]))
     ∧ (has_key step (prop_t thm) = false →
        has_key step (prop_h thm) = false →
        has_key step (axioms self) = true →
        ∃ rule, getitem step (axioms self) = inr rule
                ∧ proof_step self thm (stack, trace) (idx, step)
                  = apply_rule rule Kaxiom idx step (stack, trace))
     ∧ (has_key step (prop_t thm) = false →
        has_key step (prop_h thm) = false →
        has_key step (axioms self) = false →
        has_key step (theorems self) = true →
        ∃ rule, getitem step (theorems self) = inr rule
                ∧ proof_step self thm (stack, trace) (idx, step)
                  = apply_rule rule Ktheorem idx step (stack, trace))
     ∧ (proof_step self thm (stack, trace) (idx, step)
        = inl (Raised UnknownStep)
        ↔ unresolved self thm step))
  ∧ (∀ q Q self1 label steps,
       proof_steps thm = inr steps → q ∈ steps →
       unresolved self thm q →
       add_theorem q Q self = (inr tt, self1) →
       (∃ e, add_theorem label thm self = (inl e, self))
       ∧ ∀ idx st,
           proof_step self1 thm st (idx, q)
           = apply_rule Q Ktheorem idx q st).
Proof.
  split.
  - intros idx step stack trace. split_and!.
    + intros Ht. destruct (getitem_has_key _ _ Ht) as (v & Hv & _).
      exists v. split; [done|]. unfold proof_step. by rewrite Ht, Hv.
    + intros Ht Hh. destruct (getitem_has_key _ _ Hh) as (v & Hv & _).
      exists v. split; [done|]. unfold proof_step. by rewrite Ht, Hh, Hv.
    + intros Ht Hh Ha. destruct (getitem_has_key _ _ Ha) as (v & Hv & _).
      exists v. split; [done|]. unfold proof_step.
      by rewrite Ht, Hh, Ha, Hv.
    + intros Ht Hh Ha Hth.
      destruct (getitem_has_key _ _ Hth) as (v & Hv & _).
      exists v. split; [done|]. unfold proof_step.
      by rewrite Ht, Hh, Ha, Hth, Hv.
    + apply proof_step_unknown_iff.
  - intros q Q self1 label steps Hsteps Hin Hq Hadd. split.
    + destruct (run_unresolved self thm steps q 1 ([], []) Hin Hq)
        as [e He].
      apply (add_theorem_rejected _ _ _ e).
      unfold _proof_check, run_steps. by rewrite Hsteps, He.
    + intros idx [stack trace].
      apply add_theorem_inv in Hadd as (-> & _ & _).
      destruct Hq as (Ht & Hh & Ha & _). unfold proof_step. simpl.
      rewrite Ht, Hh, Ha.
      destruct (has_key_setitem q Q (theorems self)) as [-> ->]. done.
Qed.

(** ** The theorems at the small database *)

(** The normalizer at the theorem ['idi']. *)
Lemma check_idempotent_witness :
  (prop_d Scenario.idi = prop_d Scenario.idi
   ∧ prop_t Scenario.idi = prop_t Scenario.idi
   ∧ prop_h Scenario.idi = prop_h Scenario.idi
   ∧ prop_a Scenario.idi = prop_a Scenario.idi
   ∧ prop_p Scenario.idi = prop_p Scenario.idi)
  ∧ _check_ Scenario.base Scenario.idi = inr Scenario.idi.
Proof.
  apply (check_idempotent Scenario.base Scenario.idi Scenario.idi).
  vm_compute. reflexivity.
Defined.

(** A duplicate constant, an axiom with an undeclared token and a theorem
    with an empty proof leave the system as it was. *)
Lemma add_atomic_witness :
  snd (add_constant "wff" Scenario.base) = Scenario.base
  ∧ snd (add_axiom "wnew" Scenario.wnew Scenario.base) = Scenario.base
  ∧ snd (add_theorem "th" Scenario.no_steps Scenario.base) = Scenario.base.
Proof.
  split_and!.
  - apply (proj1 (add_atomic Scenario.base _ (Raised DuplicateLabel)) "wff").
    vm_compute. reflexivity.
  - apply (proj1 (proj2 (add_atomic Scenario.base _ (Raised UnknownToken)))
             "wnew" Scenario.wnew).
    vm_compute. reflexivity.
  - apply (proj2 (proj2 (add_atomic Scenario.base _ (Raised MalformedProof)))
             "th" Scenario.no_steps).
    vm_compute. reflexivity.
Defined.

(** The proof of ['idi'] ends with the stack [['|- ph']]; the empty proof
    ends with the empty stack. *)
Lemma proof_check_succeeds_iff_witness :
  (∃ r, _proof_check Scenario.base Scenario.idi false = inr r)
  ∧ _proof_check Scenario.base Scenario.no_steps false
    = inl (Raised MalformedProof).
Proof.
  split.
  - apply (proj1 (proof_check_succeeds_iff Scenario.base Scenario.idi false)).
    exists ["|- ph"], [TrPushHyp 1 "idi.1" "|- ph"].
    split_and!; vm_compute; reflexivity.
  - apply (proj2 (proof_check_succeeds_iff Scenario.base Scenario.no_steps
                    false) [] []).
    + vm_compute. reflexivity.
    + intros [Hlen _]. discriminate Hlen.
Defined.

(** [dvr] applied to ['set a'] and ['set a']: both variables receive the
    token ['a']. *)
Lemma distinct_violation_iff_witness :
  apply_rule Distinct.dvr Kaxiom 1 "dvr" (["set a"; "set a"], [])
  = inl (Raised DistinctViolation).
Proof.
  apply (proj1 (distinct_violation_iff Distinct.dvr Kaxiom 1 "dvr"
                  ["set a"; "set a"] ["set a"; "set a"] []
                  [] ([TrApply 1 Kaxiom "dvr" ["set a"; "set a"]]
                      ++ Distinct.matches "a")
                  (Distinct.subs_a "a")
                  ltac:(repeat constructor)
                  ltac:(vm_compute; reflexivity)
                  ltac:(vm_compute; reflexivity))).
  exists "d1", "x y", "x", "y", "a", "a".
  split_and!; [left|vm_compute; reflexivity..|].
  exists "a". split; vm_compute; left.
Defined.

(** The theorem that refers to ['idi'] is rejected before ['idi'] is added
    and accepted after. *)
Lemma step_resolution_witness :
  (∃ e, add_theorem "uses" Scenario.uses_idi Scenario.base
        = (inl e, Scenario.base))
  ∧ add_theorem "uses" Scenario.uses_idi Scenario.with_idi
    = (inr tt, set_theorems [("idi", Scenario.idi);
                             ("uses", Scenario.uses_idi)] Scenario.base).
Proof.
  split; [|vm_compute; reflexivity].
  apply (proj2 (step_resolution Scenario.base Scenario.uses_idi)
           "idi" Scenario.idi Scenario.with_idi "uses" ["wps"; "h"; "idi"]).
  - vm_compute. reflexivity.
  - do 2 right. left.
  - split_and!; vm_compute; reflexivity.
  - vm_compute. reflexivity.
Defined.

(** [dvr] applied to ['set a'] and ['set b'] binds ['x'] and ['y']. *)
Lemma substitution_total_witness :
  dom (Distinct.subs_a "b") = list_to_set ["x"; "y"].
Proof.
  apply (substitution_total Scenario.base Distinct.dvr Distinct.dvr
           ["vx"; "x"; "vy"; "y"] ["x"; "y"] ["set a"; "set b"]
           ["set b"; "set a"] [] [] (Distinct.matches "b")
           (Distinct.subs_a "b")); vm_compute; reflexivity.
Defined.

(** * Further properties of the checker *)

(** ** What the normalizer has checked *)

Lemma foldM_error_in {A S : Type} (P : exn → Prop) (f : S → A → res S)
    (l : list A) (s : S) (e : exn) :
  (∀ s x e, x ∈ l → f s x = inl e → P e) → foldM f l s = inl e → P e.
Proof.
  revert s. induction l as [|x l IH]; intros s Hf; [done|].
  rewrite foldM_cons. destruct (f s x) as [e'|s'] eqn:Hx.
  - intros [= <-]. eapply Hf; [left|done].
  - apply IH. intros s0 y e0 Hy. apply Hf. by right.
Qed.

Lemma assert_inv (b : bool) (k : error_kind) (r : unit) :
  assert b k = inr r → b = true.
Proof. unfold assert. by destruct b. Qed.

Lemma check_tokens_inv (self : FormalSystem) (vs : list string) (v : string) :
  check_tokens self vs v = inr tt →
  ∀ tok, tok ∈ split v → tok ∈ constants self ∨ tok ∈ vs.
Proof.
  unfold check_tokens. induction (split v) as [|t ts IH]; intros H tok Hin.
  - by apply elem_of_nil in Hin.
  - rewrite foldM_cons in H.
    destruct (assert (token_ok self vs t) UnknownToken) as [e|[]] eqn:Ha;
      [done|].
    apply elem_of_cons in Hin as [->|Hin]; [|by apply IH].
    apply assert_inv in Ha. unfold token_ok, elem in Ha.
    apply orb_true_iff in Ha as [Ha|Ha]; apply bool_decide_eq_true in Ha;
      auto.
Qed.

Lemma check_tokens_error (self : FormalSystem) (vs : list string)
    (v : string) (e : exn) :
  check_tokens self vs v = inl e → e = Raised UnknownToken.
Proof.
  unfold check_tokens.
  destruct (foldM _ (split v) tt) as [e'|[]] eqn:Hf; [|done].
  intros [= <-]. revert Hf.
  apply (foldM_error (λ e, e = Raised UnknownToken)).
  intros [] tok e0. unfold assert. by case_match; intros [= <-].
Qed.

(** Step 2: the names collected, the variables, and their freshness. *)
Lemma check_t_fold_names (self : FormalSystem) (prop : proposition)
    (ks nn0 vs0 nn vs : list string) :
  foldM (check_t_entry self prop) ks (nn0, vs0) = inr (nn, vs) →
  (∀ x, x ∈ vs0 → x ∈ nn0) → NoDup nn0 →
  ∃ xs, vs = vs0 ++ xs ∧ length xs = length ks
        ∧ nn ≡ₚ nn0 ++ ks ++ xs ∧ NoDup nn
        ∧ (∀ x, x ∈ vs → x ∈ nn)
        ∧ Forall (fresh_name self) (ks ++ xs)
        ∧ Forall2 (λ k x, ∃ tv c, getitem k (prop_t prop) = inr tv
                                  ∧ split tv = [c; x]
                                  ∧ c ∈ constants self) ks xs.
Proof.
  revert nn0 vs0. induction ks as [|k ks IH]; intros nn0 vs0.
  - intros [= <- <-] Hsub Hnd. exists []. rewrite !app_nil_r.
    split_and!; try done; constructor.
  - rewrite foldM_cons.
    destruct (check_t_entry self prop (nn0, vs0) k) as [e|[nn1 vs1]] eqn:He;
      [done|].
    intros Hf Hsub Hnd. unfold check_t_entry, assert, elem in He.
    repeat case_match; simplify_eq.
    repeat match goal with
           | H : negb _ = true |- _ => apply negb_true_iff in H
           | H : _ && _ = true |- _ => apply andb_true_iff in H as [? ?]
           | H : bool_decide _ = true |- _ => apply bool_decide_eq_true in H
           | H : bool_decide _ = false |- _ =>
               apply bool_decide_eq_false in H
           | H : in_namespace _ _ = false |- _ =>
               apply not_in_namespace in H
           end.
    match goal with H : split _ = [?c; ?x] |- _ => rename x into var end.
    apply IH in Hf as (xs & -> & Hlen & Hperm & Hnd' & Hsub' & Hfresh & Hall).
    + exists (var :: xs). split_and!.
      * by rewrite <- app_assoc.
      * simpl. by rewrite Hlen.
      * rewrite Hperm. rewrite <- !app_assoc. simpl.
        apply Permutation_app_head. constructor.
        by rewrite Permutation_middle.
      * done.
      * done.
      * rewrite <- Permutation_middle. simpl. by repeat constructor.
      * constructor; [|done]. eauto 10.
    + intros x Hx. apply elem_of_app in Hx as [Hx|Hx].
      * apply elem_of_app. left. apply elem_of_app. left. by apply Hsub.
      * apply elem_of_app. right. done.
    + apply NoDup_app. split_and!.
      * apply NoDup_app. split_and!; [done| |apply NoDup_singleton].
        intros y Hy Hy'. apply list_elem_of_singleton in Hy' as ->. done.
      * intros y Hy Hy'. apply list_elem_of_singleton in Hy' as ->. done.
      * apply NoDup_singleton.
Qed.

(** Step 3: the hypothesis labels and the tokens of the hypotheses. *)
Lemma check_h_fold (self : FormalSystem) (nn vs : list string)
    (hs : dict string) (hn0 hn : list string) :
  foldM (check_h_entry self nn vs) hs hn0 = inr hn →
  hn = hn0 ++ keys hs
  ∧ Forall (λ k, fresh_name self k ∧ (k ∉ nn)) (keys hs)
  ∧ (NoDup hn0 → NoDup hn)
  ∧ Forall (λ kv, ∀ tok, tok ∈ split kv.2 →
                         tok ∈ constants self ∨ tok ∈ vs) hs.
Proof.
  revert hn0. induction hs as [|[k v] hs IH]; intros hn0.
  - intros [= <-]. simpl. rewrite app_nil_r. split_and!; try done; constructor.
  - rewrite foldM_cons.
    destruct (check_h_entry self nn vs hn0 (k, v)) as [e|hn1] eqn:He; [done|].
    intros Hf. unfold check_h_entry, assert, elem in He.
    destruct (_ && _ && _) eqn:Hb; [|done].
    destruct (check_tokens self vs v) as [e|[]] eqn:Ht; [done|].
    simplify_eq.
    apply andb_true_iff in Hb as [Hb H3]. apply andb_true_iff in Hb as [H1 H2].
    apply negb_true_iff in H1, H2, H3. apply not_in_namespace in H1.
    apply bool_decide_eq_false in H2, H3.
    apply IH in Hf as (-> & Hfr & Hnd & Htok).
    split_and!.
    + simpl. by rewrite <- app_assoc.
    + by constructor.
    + intros Hnd0. apply Hnd. apply NoDup_app. split_and!; [done| |].
      * intros y Hy Hy'. apply list_elem_of_singleton in Hy' as ->. done.
      * apply NoDup_singleton.
    + constructor; [|done]. simpl. by apply check_tokens_inv.
Qed.

(** Step 5: the distinct labels. *)
Lemma check_d_fold_names (self : FormalSystem) (nn vs hn : list string)
    (ds : dict string) (dn0 dn : list string) :
  foldM (check_d_entry self nn vs hn) ds dn0 = inr dn →
  dn = dn0 ++ keys ds
  ∧ Forall (λ k, fresh_name self k ∧ (k ∉ nn) ∧ (k ∉ hn)) (keys ds)
  ∧ (NoDup dn0 → NoDup dn).
Proof.
  revert dn0. induction ds as [|[k v] ds IH]; intros dn0.
  - intros [= <-]. simpl. rewrite app_nil_r. split_and!; try done; constructor.
  - rewrite foldM_cons.
    destruct (check_d_entry self nn vs hn dn0 (k, v)) as [e|dn1] eqn:He;
      [done|].
    intros Hf. unfold check_d_entry, assert, elem in He.
    destruct (_ && _ && _ && _) eqn:Hb; [|done].
    apply andb_true_iff in Hb as [Hb Hk4].
    apply andb_true_iff in Hb as [Hb Hk3].
    apply andb_true_iff in Hb as [Hk1 Hk2].
    apply negb_true_iff in Hk1, Hk2, Hk3, Hk4. apply not_in_namespace in Hk1.
    apply bool_decide_eq_false in Hk2, Hk3, Hk4.
    repeat case_match; simplify_eq.
    apply IH in Hf as (-> & Hfr & Hnd).
    split_and!.
    + simpl. by rewrite <- app_assoc.
    + by constructor.
    + intros Hnd0. apply Hnd. apply NoDup_app. split_and!; [done| |].
      * intros y Hy Hy'. apply list_elem_of_singleton in Hy' as ->. done.
      * apply NoDup_singleton.
Qed.

(** Step 6: the set [used]. *)
Lemma used_vars_spec (vs : list string) (prop : proposition) (x : string) :
  x ∈ used_vars vs prop
  ↔ x ∈ vs ∧ ((∃ hv, hv ∈ values (prop_h prop) ∧ x ∈ split hv)
              ∨ x ∈ split (prop_a prop)).
Proof.
  unfold used_vars.
  assert (∀ (hvs : list string) (acc : gset string),
    x ∈ foldl (λ (used : gset string) hv,
                 used ∪ list_to_set (filter (λ tok, tok ∈ vs) (split hv)))
              acc hvs
    ↔ x ∈ acc ∨ (x ∈ vs ∧ ∃ hv, hv ∈ hvs ∧ x ∈ split hv)) as Hh.
  { induction hvs as [|hv hvs IH]; intros acc; simpl.
    - split; [auto|]. intros [?|(_ & hv & Hin & _)]; [done|].
      by apply elem_of_nil in Hin.
    - rewrite IH, elem_of_union, elem_of_list_to_set, list_elem_of_filter.
      split.
      + intros [[?|[? ?]]|(? & hv' & ? & ?)]; eauto.
        * right. split; [done|]. exists hv. split; [left|done].
        * right. split; [done|]. exists hv'. split; [by right|done].
      + intros [?|(? & hv' & Hin & ?)]; [auto|].
        apply elem_of_cons in Hin as [->|Hin]; [auto|].
        right. split; [done|]. eauto. }
  assert (∀ (toks : list string) (acc : gset string),
    x ∈ foldl (λ (used : gset string) tok,
                 if elem tok vs then used ∪ {[tok]} else used) acc toks
    ↔ x ∈ acc ∨ (x ∈ vs ∧ x ∈ toks)) as Ha.
  { induction toks as [|tok toks IH]; intros acc; simpl.
    - split; [auto|]. intros [?|[_ Hin]]; [done|].
      by apply elem_of_nil in Hin.
    - rewrite IH. unfold elem. case_bool_decide as Hv.
      + rewrite elem_of_union, elem_of_singleton, elem_of_cons.
        split; [intros [[?| ->]|[? ?]]|intros [?|[? [-> |?]]]]; auto.
      + rewrite elem_of_cons.
        split; [intros [?|[? ?]]|intros [?|[? [-> |?]]]]; auto. done. }
  rewrite Ha, Hh, elem_of_empty. tauto.
Qed.

(** The stages of an accepted proposition. *)
Lemma check_stages (self : FormalSystem) (prop prop' : proposition) :
  _check_ self prop = inr prop' →
  ∃ nn vs hn dn,
    check_t self prop = inr (nn, vs)
    ∧ foldM (check_h_entry self nn vs) (prop_h prop) [] = inr hn
    ∧ check_tokens self vs (prop_a prop) = inr tt
    ∧ foldM (check_d_entry self nn vs hn) (prop_d prop) [] = inr dn
    ∧ list_to_set vs ∖ used_vars vs prop = (∅ : gset string).
Proof.
  unfold _check_. intros H.
  destruct (check_t self prop) as [e|[nn vs]] eqn:H1; [done|].
  destruct (foldM (check_h_entry self nn vs) _ _) as [e|hn] eqn:H2; [done|].
  destruct (check_tokens self vs _) as [e|[]] eqn:H3; [done|].
  destruct (foldM (check_d_entry self nn vs hn) _ _) as [e|dn] eqn:H4;
    [done|].
  unfold assert in H. case_bool_decide as Hm; [|done].
  exists nn, vs, hn, dn. split_and!; done.
Qed.

(** X1. In a proposition that the normalizer accepts, every token of a
    hypothesis and of the assertion is a constant of the system or a
    variable of the typing block, every typecode of the typing block is a
    constant, and every distinct entry holds two different variables. *)
Theorem check_tokens_declared (self : FormalSystem)
    (prop prop' : proposition) (new_names variables : list string) :
  _check_ self prop = inr prop' →
  check_t self prop = inr (new_names, variables) →
  (∀ k v tok, (k, v) ∈ prop_h prop → tok ∈ split v →
              tok ∈ constants self ∨ tok ∈ variables)
  ∧ (∀ tok, tok ∈ split (prop_a prop) →
            tok ∈ constants self ∨ tok ∈ variables)
  ∧ (∀ k v, (k, v) ∈ prop_t prop →
            ∃ c x, split v = [c; x] ∧ c ∈ constants self ∧ x ∈ variables)
  ∧ (∀ k v, (k, v) ∈ prop_d prop →
            ∃ v1 v2, split v = [v1; v2] ∧ v1 ∈ variables ∧ v2 ∈ variables
                     ∧ v1 ≠ v2).
Proof.
  intros Hc Ht.
  destruct (check_stages _ _ _ Hc) as (nn & vs & hn & dn & Ht' & Hh & Ha & Hd & _).
  rewrite Ht in Ht'. simplify_eq. split_and!.
  - intros k v tok Hin Htok. apply check_h_fold in Hh as (_ & _ & _ & Hall).
    rewrite Forall_forall in Hall. by apply (Hall _ Hin).
  - by apply check_tokens_inv.
  - intros k v Hin. unfold check_t in Ht.
    apply check_t_fold_names in Ht
      as (xs & Hvs & _ & _ & Hnd & _ & _ & Hall);
      [|intros ? Hx; by apply elem_of_nil in Hx|constructor].
    simpl in Hvs. subst xs.
    apply check_inv in Hc as (nn' & vs' & _ & _ & Hndk & _).
    apply list_elem_of_lookup_1 in Hin as [i Hi].
    apply Forall2_same_length_lookup in Hall as [Hlen Hall].
    assert (is_Some (vs !! i)) as [x Hx].
    { apply lookup_lt_is_Some. rewrite <- Hlen. unfold keys.
      rewrite length_fmap. by eapply lookup_lt_Some. }
    destruct (Hall i k x) as (tv & c & Hg & Hs & Hcst); [|done|].
    { unfold keys. by rewrite list_lookup_fmap, Hi. }
    apply list_elem_of_lookup_2 in Hi.
    rewrite (getitem_elem _ _ _ Hndk Hi) in Hg. simplify_eq.
    exists c, x. split_and!; [done..|]. by eapply list_elem_of_lookup_2.
  - intros k v Hin. apply check_d_fold in Hd. rewrite Forall_forall in Hd.
    apply (Hd _ Hin).
Qed.

(** X2. In a proposition that the normalizer accepts, every variable of the
    typing block occurs as a token of some hypothesis or of the assertion. *)
Theorem check_no_dead_variable (self : FormalSystem)
    (prop prop' : proposition) (new_names variables : list string) :
  _check_ self prop = inr prop' →
  check_t self prop = inr (new_names, variables) →
  ∀ x, x ∈ variables →
       (∃ k v, (k, v) ∈ prop_h prop ∧ x ∈ split v)
       ∨ x ∈ split (prop_a prop).
Proof.
  intros Hc Ht x Hx.
  destruct (check_stages _ _ _ Hc) as (nn & vs & hn & dn & Ht' & _ & _ & _ & Hm).
  rewrite Ht in Ht'. simplify_eq.
  assert (x ∈ used_vars vs prop) as Hu.
  { destruct (decide (x ∈ used_vars vs prop)) as [|Hn]; [done|].
    exfalso. apply (not_elem_of_empty (C := gset string) x).
    rewrite <- Hm. apply elem_of_difference. split; [|done].
    by apply elem_of_list_to_set. }
  apply used_vars_spec in Hu as [_ [(hv & Hin & Htok)|Ha]]; [left|by right].
  unfold values in Hin. apply list_elem_of_fmap in Hin as ([k v] & -> & Hin).
  by exists k, v.
Qed.

(** X3. In a proposition that the normalizer accepts, the typing labels, the
    variables, the hypothesis labels and the distinct labels are pairwise
    different, and none of them is in the namespace of the system. *)
Theorem check_local_names_fresh (self : FormalSystem)
    (prop prop' : proposition) (new_names variables : list string) :
  _check_ self prop = inr prop' →
  check_t self prop = inr (new_names, variables) →
  NoDup (keys (prop_t prop) ++ variables ++ keys (prop_h prop)
         ++ keys (prop_d prop))
  ∧ ∀ name, name ∈ keys (prop_t prop) ++ variables ++ keys (prop_h prop)
                   ++ keys (prop_d prop) →
            in_namespace self name = false.
Proof.
  intros Hc Ht.
  destruct (check_stages _ _ _ Hc) as (nn & vs & hn & dn & Ht' & Hh & _ & Hd & _).
  rewrite Ht in Ht'. simplify_eq. unfold check_t in Ht.
  apply check_t_fold_names in Ht
    as (xs & Hvs & _ & Hperm & Hnd & _ & Hfr & _);
    [|intros ? Hx; by apply elem_of_nil in Hx|constructor].
  simpl in Hvs, Hperm. subst xs.
  apply check_h_fold in Hh as (Hhn & Hfh & Hndh & _). simpl in Hhn. subst hn.
  apply check_d_fold_names in Hd as (Hdn & Hfd & Hndd). simpl in Hdn.
  subst dn.
  rewrite Forall_forall in Hfr, Hfh, Hfd.
  rewrite Hperm in Hnd. split.
  - rewrite app_assoc. apply NoDup_app. split_and!; [done| |].
    + intros y Hy Hy'. apply elem_of_app in Hy' as [Hy'|Hy'].
      * destruct (Hfh _ Hy') as [_ Hn]. apply Hn. by rewrite Hperm.
      * destruct (Hfd _ Hy') as (_ & Hn & _). apply Hn. by rewrite Hperm.
    + apply NoDup_app. split_and!.
      * apply Hndh. constructor.
      * intros y Hy Hy'. destruct (Hfd _ Hy') as (_ & _ & Hn). done.
      * apply (Hndd (NoDup_nil_2)).
  - intros name Hin. unfold in_namespace. apply bool_decide_eq_false.
    rewrite <- eq_None_not_Some. rewrite app_assoc in Hin.
    apply elem_of_app in Hin as [Hin|Hin]; [by apply Hfr|].
    apply elem_of_app in Hin as [Hin|Hin].
    + by destruct (Hfh _ Hin).
    + by destruct (Hfd _ Hin).
Qed.

Lemma check_t_error (self : FormalSystem) (prop : proposition) (e : exn) :
  check_t self prop = inl e → e ∈ check_kinds.
Proof.
  unfold check_t. apply (foldM_error_in (λ e, e ∈ check_kinds)).
  intros [nn vs] k e' Hk. unfold check_t_entry, assert.
  destruct (getitem_has_key k (prop_t prop)) as (v & -> & _).
  { by apply bool_decide_eq_true. }
  intros H. unfold check_kinds.
  repeat case_match; simplify_eq; rewrite !elem_of_cons; tauto.
Qed.

(** X4. The normalizer raises nothing but its five kinds: a proposition is
    accepted, or rejected with [DuplicateLabel], [MalformedField],
    [UnknownToken], [DistinctShape] or [DeadVariable]. *)
Theorem check_raises_kinds (self : FormalSystem) (prop : proposition)
    (e : exn) :
  _check_ self prop = inl e → e ∈ check_kinds.
Proof.
  unfold _check_.
  destruct (check_t self prop) as [e1|[nn vs]] eqn:H1.
  { intros [= <-]. by eapply check_t_error. }
  destruct (foldM (check_h_entry self nn vs) _ _) as [e1|hn] eqn:H2.
  { intros [= <-]. revert H2.
    apply (foldM_error (λ e, e ∈ check_kinds)).
    intros hn0 [k v] e'. unfold check_h_entry, assert.
    destruct (_ && _ && _); [|intros [= <-]; left].
    destruct (check_tokens self vs v) as [e2|[]] eqn:Ht; [|done].
    intros [= <-]. apply check_tokens_error in Ht as ->.
    unfold check_kinds. rewrite !elem_of_cons. tauto. }
  destruct (check_tokens self vs _) as [e1|[]] eqn:H3.
  { intros [= <-]. apply check_tokens_error in H3 as ->.
    unfold check_kinds. rewrite !elem_of_cons. tauto. }
  destruct (foldM (check_d_entry self nn vs hn) _ _) as [e1|dn] eqn:H4.
  { intros [= <-]. revert H4.
    apply (foldM_error (λ e, e ∈ check_kinds)).
    intros dn0 [k v] e'. unfold check_d_entry, assert, check_kinds.
    intros H. repeat case_match; simplify_eq; rewrite !elem_of_cons; tauto. }
  unfold assert. case_bool_decide; [done|]. intros [= <-].
  unfold check_kinds. rewrite !elem_of_cons. tauto.
Qed.

(** ** Tokens *)

Lemma append_cons (c : ascii) (s t : string) :
  String c s +:+ t = String c (s +:+ t).
Proof. done. Qed.

Lemma append_nil_r (s : string) : s +:+ "" = s.
Proof.
  induction s as [|c s IH]; [done|]. by rewrite append_cons, IH.
Qed.

Lemma append_assoc (s1 s2 s3 : string) :
  (s1 +:+ s2) +:+ s3 = s1 +:+ (s2 +:+ s3).
Proof.
  induction s1 as [|c s1 IH]; [done|]. by rewrite !append_cons, IH.
Qed.

Lemma nospace_app (s1 s2 : string) :
  nospace (s1 +:+ s2) = nospace s1 && nospace s2.
Proof.
  induction s1 as [|c s1 IH]; [done|]. rewrite append_cons. simpl.
  by rewrite IH, andb_assoc.
Qed.

(** A string without whitespace is at most one token. *)
Lemma split_acc_nospace (tok s : string) :
  nospace s = true → split_acc tok s = flush (tok +:+ s).
Proof.
  revert tok. induction s as [|c s IH]; intros tok; simpl.
  - by rewrite append_nil_r.
  - intros [Hc Hs]%andb_true_iff. apply negb_true_iff in Hc. rewrite Hc.
    rewrite IH by done. by rewrite append_assoc, append_cons.
Qed.

(** The tokens of a string are not empty and hold no whitespace. *)
Lemma split_acc_tokens (tok s t : string) :
  nospace tok = true → t ∈ split_acc tok s → t ≠ "" ∧ nospace t = true.
Proof.
  revert tok. induction s as [|c s IH]; intros tok Htok; simpl.
  - destruct tok; simpl; [by intros ?%elem_of_nil|].
    by intros ->%list_elem_of_singleton.
  - destruct (isspace c) eqn:Hc.
    + intros [Hin|Hin]%elem_of_app; [|by apply (IH "")].
      destruct tok; simpl in Hin; [by apply elem_of_nil in Hin|].
      by apply list_elem_of_singleton in Hin as ->.
    + apply IH. rewrite nospace_app, Htok. simpl. by rewrite Hc.
Qed.

Lemma split_token (s t : string) : t ∈ split s → split t = [t].
Proof.
  intros [Hne Hns]%split_acc_tokens; [|done]. unfold split.
  rewrite split_acc_nospace by done. simpl. by destruct t.
Qed.

(** Splitting around one space. *)
Lemma split_acc_space (tok s1 s2 : string) :
  split_acc tok (s1 +:+ String " " s2) = split_acc tok s1 ++ split s2.
Proof.
  revert tok. induction s1 as [|c s1 IH]; intros tok; [done|].
  rewrite append_cons. simpl.
  destruct (isspace c); [|apply IH]. by rewrite IH, app_assoc.
Qed.

(** [(' '.join(l)).split()] concatenates the tokens of the elements. *)
Lemma split_join (l : list string) :
  split (join " " l) = concat (split <$> l).
Proof.
  unfold join. induction l as [|x [|y l] IH]; [done| |].
  - simpl. by rewrite app_nil_r.
  - change (String.concat " " (x :: y :: l))
      with (x +:+ String " " (String.concat " " (y :: l))).
    unfold split at 1. rewrite split_acc_space. by rewrite IH.
Qed.

(** X5. Substitution acts token by token: the tokens of the substituted
    pattern are the tokens of the pattern, in order, each token bound in
    [subs] replaced by the tokens of the expression bound to it and each
    other token kept. *)
Theorem substitute_tokens (subs : gmap string string) (pat : string) :
  split (substitute subs pat) = concat (token_image subs <$> split pat).
Proof.
  unfold substitute. rewrite split_join. f_equal.
  rewrite <- list_fmap_compose. apply list_fmap_ext.
  intros i tok Htok%list_elem_of_lookup_2. unfold token_image. simpl.
  destruct (subs !! tok); [done|]. simpl. by eapply split_token.
Qed.

(** ** Rule application *)

Lemma split_join_tokens (s : string) (toks : list string) :
  (∀ t, t ∈ toks → t ∈ split s) → split (join " " toks) = toks.
Proof.
  intros Hsub. rewrite split_join. induction toks as [|t toks IH]; [done|].
  simpl. rewrite (split_token s t) by (apply Hsub; left).
  simpl. f_equal. apply IH. intros t' Ht'. apply Hsub. by right.
Qed.

Lemma unify_fold_bind (rule : proposition) (les : list (string * string))
    (xs : list string) (subs0 subs : gmap string string)
    (tr0 tr : list trace_line) :
  foldM (unify_entry rule) les (subs0, tr0) = inr (subs, tr) →
  Forall2 (declares rule) les.*1 xs → NoDup xs →
  Forall2 (λ le x, ∃ tv c toks,
             getitem le.1 (prop_t rule) = inr tv ∧ split tv = [c; x]
             ∧ split le.2 = c :: toks
             ∧ subs !! x = Some (join " " toks)) les xs
  ∧ ∀ y, y ∉ xs → subs !! y = subs0 !! y.
Proof.
  revert xs subs0 tr0. induction les as [|[lbl expr] les IH];
    intros xs subs0 tr0.
  - intros [= <- <-] Hall _. apply Forall2_nil_inv_l in Hall as ->.
    split; [constructor|done].
  - rewrite foldM_cons.
    destruct (unify_entry rule (subs0, tr0) (lbl, expr))
      as [e|[subs1 tr1]] eqn:Hu; [done|].
    intros Hf Hall Hnd. simpl in Hall.
    apply Forall2_cons_inv_l in Hall as (x & xs' & Hx & Hall & ->).
    apply NoDup_cons in Hnd as [Hx' Hnd].
    destruct (IH _ _ _ Hf Hall Hnd) as [Hbind Hframe].
    destruct Hx as (tv & c & Hg & Hs).
    unfold unify_entry, index in Hu. rewrite Hg, Hs in Hu.
    destruct (split expr) as [|tok0 toks] eqn:He; [done|]. simpl in Hu.
    case_bool_decide as Hty; [done|].
    rewrite lookup_insert_eq in Hu. simplify_eq.
    rewrite drop_0 in Hframe.
    split.
    + constructor; [|done]. exists tv, c, toks. simpl.
      split_and!; [done..|]. rewrite (Hframe _ Hx').
      by rewrite lookup_insert_eq.
    + intros y Hy. apply not_elem_of_cons in Hy as [Hne Hy].
      rewrite (Hframe _ Hy). by rewrite lookup_insert_ne.
Qed.

(** The bindings made by a successful unification. *)
Lemma unify_inv (self : FormalSystem) (rule rule' : proposition)
    (args : list string) (trace trace' : list trace_line)
    (subs : gmap string string) :
  _check_ self rule = inr rule' →
  unify rule args trace = inr (subs, trace') →
  ∀ i k v e,
    prop_t rule !! i = Some (k, v) → args !! i = Some e →
    ∃ c x toks,
      split v = [c; x] ∧ split e = c :: toks
      ∧ subs !! x = Some (join " " toks).
Proof.
  intros Hc Hu i k v e Hkv He.
  apply check_inv in Hc as (nn & vs & Ht & Hdecl & Hndk & _).
  unfold check_t in Ht.
  apply check_t_fold_names in Ht
    as (xs & Hvs & _ & Hperm & Hnd & _ & _ & _);
    [|intros ? Hx; by apply elem_of_nil in Hx|constructor].
  simpl in Hvs, Hperm. subst xs. rewrite Hperm in Hnd.
  apply NoDup_app in Hnd as (_ & _ & Hndv).
  unfold unify in Hu.
  set (les := zip (keys (prop_t rule))
                  (take (length (keys (prop_t rule))) args)) in *.
  assert (les !! i = Some (k, e)) as Hle.
  { unfold les. apply lookup_zip_with_Some. exists k, e.
    split_and!; [done| |].
    - unfold keys, dict in *. by rewrite list_lookup_fmap, Hkv.
    - rewrite lookup_take_lt; [done|]. unfold keys. rewrite length_fmap.
      by eapply lookup_lt_Some. }
  assert (Forall2 (declares rule) les.*1 (take (length les) vs)) as Hd.
  { apply Forall2_same_length_lookup. split.
    - rewrite length_fmap, length_take.
      apply Forall2_length in Hdecl. unfold les.
      rewrite length_zip in *. lia.
    - intros j lbl x Hl Hx. rewrite list_lookup_fmap in Hl.
      destruct (les !! j) as [[lbl' e']|] eqn:Hj; [|done].
      simpl in Hl. simplify_eq. unfold les in Hj.
      apply lookup_zip_with_Some in Hj as (? & ? & ? & Hk' & _).
      simplify_eq.
      apply lookup_take_Some in Hx as [Hx _].
      by eapply Forall2_lookup_lr. }
  destruct (unify_fold_bind _ _ _ _ _ _ _ Hu Hd) as [Hbind _].
  { eapply sublist_NoDup; [exact Hndv|apply sublist_take]. }
  apply Forall2_same_length_lookup in Hbind as [Hlen Hbind].
  assert (is_Some (take (length les) vs !! i)) as [x Hx].
  { apply lookup_lt_is_Some. rewrite <- Hlen. by eapply lookup_lt_Some. }
  destruct (Hbind _ _ _ Hle Hx) as (tv & c & toks & Hg & Hs & Hse & Hb).
  simpl in *. apply list_elem_of_lookup_2 in Hkv.
  rewrite (getitem_elem _ _ _ Hndk Hkv) in Hg. simplify_eq.
  by exists c, x, toks.
Qed.


(** With as many arguments as typing entries, every entry is unified. *)
Lemma unify_fold_ok (rule : proposition) (les : list (string * string))
    (subs0 : gmap string string) (tr0 : list trace_line) :
  Forall (λ le, ∃ tv c x toks,
            getitem le.1 (prop_t rule) = inr tv ∧ split tv = [c; x]
            ∧ split le.2 = c :: toks) les →
  ∃ subs tr, foldM (unify_entry rule) les (subs0, tr0) = inr (subs, tr).
Proof.
  intros Hall. revert subs0 tr0.
  induction Hall as [|[lbl expr] les (tv & c & x & toks & Hg & Hs & He) _ IH];
    intros subs0 tr0; [by eexists _, _|].
  rewrite foldM_cons. unfold unify_entry at 1, index. simpl in *.
  rewrite Hg, Hs, He. simpl. rewrite lookup_insert_eq.
  rewrite bool_decide_eq_false_2 by (by intros ?). apply IH.
Qed.

(** X6. When a rule accepted by the normalizer is unified with its
    arguments, the i-th typing entry ['c x'] and the i-th argument [e]
    agree on the typecode, [e] being ['c'] followed by the tokens [toks],
    and the substitution binds [x] to the expression whose tokens are
    [toks]. *)
Theorem unify_bindings (self : FormalSystem) (rule rule' : proposition)
    (args : list string) (trace trace' : list trace_line)
    (subs : gmap string string) :
  _check_ self rule = inr rule' →
  unify rule args trace = inr (subs, trace') →
  ∀ i k v e,
    prop_t rule !! i = Some (k, v) → args !! i = Some e →
    ∃ c x toks,
      split v = [c; x] ∧ split e = c :: toks
      ∧ subs !! x = Some (join " " toks)
      ∧ split (join " " toks) = toks.
Proof.
  intros Hc Hu i k v e Hkv He.
  destruct (unify_inv _ _ _ _ _ _ _ Hc Hu i k v e Hkv He)
    as (c & x & toks & Hs & Hse & Hb).
  exists c, x, toks. split_and!; [done..|].
  apply (split_join_tokens e). intros t Ht. rewrite Hse. by right.
Qed.

(** X18. For a rule accepted by the normalizer and at least as many
    arguments as the rule has typing entries, the type unification succeeds
    exactly when every typing argument starts with the typecode of its
    typing entry. *)
Theorem unify_succeeds_iff (self : FormalSystem) (rule rule' : proposition)
    (args : list string) (trace : list trace_line) :
  _check_ self rule = inr rule' →
  length (prop_t rule) ≤ length args →
  (∃ subs trace', unify rule args trace = inr (subs, trace'))
  ↔ ∀ i k v e,
      prop_t rule !! i = Some (k, v) → args !! i = Some e →
      ∃ c x toks, split v = [c; x] ∧ split e = c :: toks.
Proof.
  intros Hc Hlen. split.
  - intros (subs & trace' & Hu) i k v e Hkv He.
    destruct (unify_inv _ _ _ _ _ _ _ Hc Hu i k v e Hkv He)
      as (c & x & toks & Hs & Hse & _).
    by exists c, x, toks.
  - intros Hagree. unfold unify. apply unify_fold_ok.
    apply check_inv in Hc as (nn & vs & _ & _ & Hndk & _).
    apply Forall_forall. intros [lbl expr] Hin.
    apply list_elem_of_lookup_1 in Hin as [i Hi].
    apply lookup_zip_with_Some in Hi as (? & ? & ? & Hk & He).
    simplify_eq. unfold keys in Hk. rewrite list_lookup_fmap in Hk.
    apply fmap_Some in Hk as ([k v] & Hkv & ->).
    apply lookup_take_Some in He as [He _].
    destruct (Hagree _ _ _ _ Hkv He) as (c & x & toks & Hs & Hse).
    exists v, c, x, toks. simpl. split_and!; [|done..].
    apply getitem_elem; [done|]. by eapply list_elem_of_lookup_2.
Qed.

Lemma match_hyps_fold_inv (rule : proposition) (subs : gmap string string)
    (args : list string) (hk : list string) (k : nat)
    (tr0 tr : list trace_line) :
  foldM (hyp_entry rule subs args) (enumerate k hk) tr0 = inr tr →
  ∀ i h_lbl, hk !! i = Some h_lbl →
    ∃ h_pat, getitem h_lbl (prop_h rule) = inr h_pat
             ∧ args !! (k + i) = Some (substitute subs h_pat).
Proof.
  revert k tr0. induction hk as [|h hk IH]; intros k tr0 Hf i h_lbl Hi;
    [done|].
  cbn [enumerate] in Hf. rewrite foldM_cons in Hf.
  destruct (hyp_entry rule subs args tr0 (k, h)) as [e|tr1] eqn:He; [done|].
  destruct i as [|i]; simpl in Hi.
  - simplify_eq. unfold hyp_entry, index in He.
    destruct (getitem h_lbl (prop_h rule)) as [e|h_pat]; [done|].
    destruct (args !! k) as [actual|] eqn:Ha; [|done].
    case_bool_decide as Hne; [done|].
    exists h_pat. split; [done|]. by rewrite Nat.add_0_r, Ha, Hne.
  - destruct (IH _ _ Hf i h_lbl Hi) as (h_pat & Hg & Ha).
    exists h_pat. split; [done|]. by rewrite <- Nat.add_succ_comm.
Qed.

Lemma match_hyps_fold_ok (rule : proposition) (subs : gmap string string)
    (args : list string) (hk : list string) (k : nat)
    (tr0 : list trace_line) :
  (∀ i h_lbl, hk !! i = Some h_lbl →
     ∃ h_pat, getitem h_lbl (prop_h rule) = inr h_pat
              ∧ args !! (k + i) = Some (substitute subs h_pat)) →
  ∃ tr, foldM (hyp_entry rule subs args) (enumerate k hk) tr0 = inr tr.
Proof.
  revert k tr0. induction hk as [|h hk IH]; intros k tr0 Hall;
    [by eexists|].
  cbn [enumerate]. rewrite foldM_cons.
  destruct (Hall 0 h) as (h_pat & Hg & Ha); [done|].
  rewrite Nat.add_0_r in Ha. unfold hyp_entry at 1, index.
  rewrite Hg, Ha. rewrite bool_decide_eq_false_2 by (by intros ?).
  apply IH. intros i h_lbl Hi.
  destruct (Hall (S i) h_lbl) as (h_pat' & Hg' & Ha'); [done|].
  exists h_pat'. split; [done|]. by rewrite Nat.add_succ_comm.
Qed.

Lemma pop_n_app (rest args : list string) :
  pop_n (length args) (rest ++ args) = inr (reverse args, rest).
Proof.
  induction args as [|x args IH] using rev_ind.
  - simpl. by rewrite app_nil_r.
  - rewrite length_app, Nat.add_comm. simpl. rewrite app_assoc.
    unfold pop. rewrite last_snoc, removelast_last, IH.
    by rewrite reverse_snoc.
Qed.

(** X7. A rule application succeeds, leaving the stack [stack'], exactly
    when the stack holds the arguments of the rule, as many as its typing
    entries and hypotheses, above the expressions [rest], the typing
    arguments unify with the typing block and give the substitution
    [subs], no distinct entry is violated, each hypothesis argument is the
    hypothesis of the rule under [subs], and [stack'] is [rest] followed by
    the assertion of the rule under [subs]. *)
Theorem apply_rule_succeeds_iff (rule : proposition) (knd : kind)
    (idx : nat) (step : string) (stack stack' : list string)
    (trace : list trace_line) :
  (∃ trace', apply_rule rule knd idx step (stack, trace)
             = inr (stack', trace'))
  ↔ ∃ rest args subs tr,
      stack = rest ++ args
      ∧ length args = length (prop_t rule) + length (prop_h rule)
      ∧ unify rule args (trace ++ [TrApply idx knd step args])
        = inr (subs, tr)
      ∧ distinct_check rule subs = inr tt
      ∧ (∀ i h_lbl,
           keys (prop_h rule) !! i = Some h_lbl →
           ∃ h_pat, getitem h_lbl (prop_h rule) = inr h_pat
                    ∧ args !! (length (prop_t rule) + i)
                      = Some (substitute subs h_pat))
      ∧ stack' = rest ++ [substitute subs (prop_a rule)].
Proof.
  assert (length (keys (prop_t rule) ++ keys (prop_h rule))
          = length (prop_t rule) + length (prop_h rule)) as Hn.
  { rewrite length_app. unfold keys. by rewrite !length_fmap. }
  split.
  - intros [trace' H]. unfold apply_rule in H. case_match; [done|].
    destruct (pop_n _ stack) as [e|[popped rest]] eqn:Hpop; [done|].
    destruct (unify _ _ _) as [e|[subs tr1]] eqn:Hu; [done|].
    destruct (distinct_check _ _) as [e|[]] eqn:Hd; [done|].
    destruct (match_hyps _ _ _ _) as [e|tr2] eqn:Hm; [done|].
    simplify_eq. apply pop_n_inv in Hpop as [-> Hlen].
    exists rest, (reverse popped), subs, tr1. split_and!; try done.
    + by rewrite length_reverse, Hlen.
    + intros i h_lbl Hi. unfold match_hyps in Hm.
      destruct (match_hyps_fold_inv _ _ _ _ _ _ _ Hm i h_lbl Hi)
        as (h_pat & Hg & Ha).
      exists h_pat. split; [done|]. unfold keys in Ha.
      by rewrite length_fmap in Ha.
  - intros (rest & args & subs & tr & -> & Hlen & Hu & Hd & Hh & ->).
    unfold apply_rule. rewrite Hn, <- Hlen.
    rewrite (proj2 (Nat.ltb_ge _ _)) by (rewrite length_app; lia).
    rewrite pop_n_app, reverse_involutive, Hu, Hd.
    destruct (match_hyps_fold_ok rule subs args (keys (prop_h rule))
                (length (keys (prop_t rule))) tr) as [tr2 Hm].
    { intros i h_lbl Hi. unfold keys at 1. rewrite length_fmap.
      by apply Hh. }
    unfold match_hyps. rewrite Hm. by eexists.
Qed.

(** X8. A rule application fails with [StackUnderflow] exactly when the
    stack holds fewer expressions than the rule has typing entries and
    hypotheses. *)
Theorem stack_underflow_iff (rule : proposition) (knd : kind) (idx : nat)
    (step : string) (stack : list string) (trace : list trace_line) :
  apply_rule rule knd idx step (stack, trace) = inl (Raised StackUnderflow)
  ↔ length stack < length (prop_t rule) + length (prop_h rule).
Proof.
  unfold apply_rule. rewrite length_app. unfold keys. rewrite !length_fmap.
  destruct (length stack <? _) eqn:Hlt.
  - apply Nat.ltb_lt in Hlt. done.
  - apply Nat.ltb_ge in Hlt. split; [|lia].
    destruct (pop_n_ok (length (prop_t rule) + length (prop_h rule)) stack Hlt)
      as (popped & rest & ->).
    destruct (unify _ _ _) as [e1|[subs tr1]] eqn:Hu.
    { intros [= ->]. apply unify_error in Hu. revert Hu.
      rewrite !elem_of_cons, elem_of_nil. intros [?|[?|[?|[?|[]]]]]; done. }
    destruct (distinct_check _ _) as [e1|[]] eqn:Hd.
    { intros [= ->]. apply distinct_check_error in Hd. revert Hd.
      rewrite !elem_of_cons, elem_of_nil. intros [?|[?|[]]]; done. }
    destruct (match_hyps _ _ _ _) as [e1|tr2] eqn:Hm; [|done].
    intros [= ->]. apply match_hyps_error in Hm. revert Hm.
    rewrite !elem_of_cons, elem_of_nil. intros [?|[?|[?|[]]]]; done.
Qed.

(** ** Sequences of calls *)

Lemma add_constant_inv (self self' : FormalSystem) (c : string) :
  add_constant c self = (inr tt, self') →
  in_namespace self c = false
  ∧ self' = set_namespace (<[c := Kconstant]> (namespace self))
              (set_constants (constants self ++ [c]) self).
Proof. unfold_M. intros H. by repeat case_match; simplify_eq. Qed.

Lemma add_axiom_inv (self self' : FormalSystem) (label : string)
    (ax : proposition) :
  add_axiom label ax self = (inr tt, self') →
  in_namespace self label = false
  ∧ _check_ self ax = inr ax
  ∧ self' = set_axioms (setitem label ax (axioms self)) self.
Proof.
  unfold_M. intros H. repeat case_match; simplify_eq.
  match goal with H : _check_ _ _ = inr _ |- _ =>
    pose proof (check_returns_input _ _ _ H) as -> end.
  done.
Qed.

(** What a call does to the state, whether it returns or raises. *)
Lemma run_call_state (c : call) (self : FormalSystem) :
  snd (run_call c self) = self
  ∨ (∃ k, c = AddConstant k ∧ in_namespace self k = false
          ∧ snd (run_call c self)
            = set_namespace (<[k := Kconstant]> (namespace self))
                (set_constants (constants self ++ [k]) self))
  ∨ (∃ l ax, c = AddAxiom l ax ∧ _check_ self ax = inr ax
             ∧ snd (run_call c self)
               = set_axioms (setitem l ax (axioms self)) self)
  ∨ (∃ l th, c = AddTheorem l th ∧ _check_ self th = inr th
             ∧ _proof_check self th false = inr CTrue
             ∧ snd (run_call c self)
               = set_theorems (setitem l th (theorems self)) self).
Proof.
  destruct (run_call c self) as [[e|[]] s'] eqn:Hr; simpl.
  - left. destruct c; simpl in Hr; unfold_M; repeat case_match;
      by simplify_eq.
  - destruct c as [k|l ax|l th]; simpl in Hr.
    + apply add_constant_inv in Hr as [? ->]. right. left. eauto.
    + apply add_axiom_inv in Hr as (? & ? & ->). right. right. left.
      eauto 6.
    + apply add_theorem_inv in Hr as (-> & ? & ?). right. right. right.
      eauto 8.
Qed.

Lemma run_call_namespace (c : call) (self : FormalSystem) (l : string) :
  in_namespace self l = true →
  in_namespace (snd (run_call c self)) l = true.
Proof.
  intros Hl.
  destruct (run_call_state c self)
    as [->|[(k & _ & _ & ->)|[(? & ? & _ & _ & ->)|(? & ? & _ & _ & _ & ->)]]];
    try done.
  unfold in_namespace in *. simpl. apply bool_decide_eq_true.
  apply bool_decide_eq_true in Hl. rewrite lookup_insert.
  case_decide; [by eexists|done].
Qed.

Lemma after_calls_snoc (cs : list call) (c : call) (self : FormalSystem) :
  after_calls (cs ++ [c]) self = snd (run_call c (after_calls cs self)).
Proof. unfold after_calls. by rewrite foldl_snoc. Qed.

(** X9. A label of the namespace stays in it under every sequence of calls,
    and each of the three additions under such a label raises
    [DuplicateLabel] and changes nothing; in particular a constant added by
    [add_constant] can never be added again, as a constant, an axiom or a
    theorem. *)
Theorem registered_label_refused (self : FormalSystem) (l : string)
    (cs : list call) :
  in_namespace self l = true ∨ (∃ s0, add_constant l s0 = (inr tt, self)) →
  in_namespace (after_calls cs self) l = true
  ∧ add_constant l (after_calls cs self)
    = (inl (Raised DuplicateLabel), after_calls cs self)
  ∧ ∀ prop,
      add_axiom l prop (after_calls cs self)
      = (inl (Raised DuplicateLabel), after_calls cs self)
      ∧ add_theorem l prop (after_calls cs self)
        = (inl (Raised DuplicateLabel), after_calls cs self).
Proof.
  intros Hl.
  assert (in_namespace self l = true) as Hin.
  { destruct Hl as [?|[s0 Hadd]]; [done|].
    apply add_constant_inv in Hadd as [_ ->]. unfold in_namespace. simpl.
    apply bool_decide_eq_true. rewrite lookup_insert_eq. by eexists. }
  assert (in_namespace (after_calls cs self) l = true) as Hafter.
  { induction cs as [|c cs IH] using rev_ind; [done|].
    rewrite after_calls_snoc. by apply run_call_namespace. }
  split_and!; [done|..]; [|intros prop; split]; unfold_M; by rewrite Hafter.
Qed.

Lemma keys_setitem {V : Type} (k : string) (v : V) (m : dict V) :
  keys (setitem k v m)
  = if has_key k m then keys m else keys m ++ [k].
Proof.
  unfold has_key, keys. induction m as [|[k0 v0] m IH]; [done|].
  cbn [setitem]. destruct (decide (k = k0)) as [->|Hk].
  - rewrite (bool_decide_eq_true_2 (k0 = k0)) by done.
    rewrite bool_decide_eq_true_2; [done|]. rewrite fmap_cons. left.
  - rewrite (bool_decide_eq_false_2 (k = k0)) by done.
    rewrite !fmap_cons, IH. cbn [fst].
    destruct (decide (k ∈ m.*1)) as [Hin|Hin].
    + rewrite (bool_decide_eq_true_2 (k ∈ m.*1)) by done.
      rewrite bool_decide_eq_true_2; [done|]. by right.
    + rewrite (bool_decide_eq_false_2 (k ∈ m.*1)) by done.
      rewrite bool_decide_eq_false_2; [done|].
      rewrite elem_of_cons. tauto.
Qed.

Lemma getitem_setitem_ne {V : Type} (k k' : string) (v : V) (m : dict V) :
  k' ≠ k →
  getitem k' (setitem k v m) = getitem k' m
  ∧ has_key k' (setitem k v m) = has_key k' m.
Proof.
  intros Hne. split.
  - induction m as [|[k0 v0] m IH]; simpl.
    + by rewrite bool_decide_eq_false_2 by done.
    + destruct (decide (k = k0)) as [->|Hk].
      * rewrite (bool_decide_eq_true_2 (k0 = k0)) by done. simpl.
        by rewrite bool_decide_eq_false_2 by done.
      * rewrite (bool_decide_eq_false_2 (k = k0)) by done. simpl.
        by rewrite IH.
  - unfold has_key. apply bool_decide_ext. rewrite keys_setitem.
    destruct (has_key k m); [done|]. rewrite elem_of_app, elem_of_cons,
      elem_of_nil. tauto.
Qed.

(** X10. [add_axiom] returns exactly when the label is outside the
    namespace and the normalizer accepts the axiom. It then stores the
    axiom as given under the label, in place when the label is already an
    axiom and at the end otherwise, and leaves the other axioms, the
    constants, the theorems and the namespace as they are. *)
Theorem add_axiom_stores (self self' : FormalSystem) (label : string)
    (ax : proposition) :
  (add_axiom label ax self = (inr tt, self')
   ↔ in_namespace self label = false ∧ _check_ self ax = inr ax
     ∧ self' = set_axioms (setitem label ax (axioms self)) self)
  ∧ (add_axiom label ax self = (inr tt, self') →
     getitem label (axioms self') = inr ax
     ∧ (∀ l, l ≠ label →
             getitem l (axioms self') = getitem l (axioms self))
     ∧ keys (axioms self')
       = (if has_key label (axioms self) then keys (axioms self)
          else keys (axioms self) ++ [label])
     ∧ constants self' = constants self
     ∧ theorems self' = theorems self
     ∧ namespace self' = namespace self).
Proof.
  split; [split|].
  - apply add_axiom_inv.
  - intros (Hf & Hc & ->). unfold_M. by rewrite Hf, Hc.
  - intros (_ & _ & ->)%add_axiom_inv. simpl. split_and!; try done.
    + apply has_key_setitem.
    + intros l Hl. by apply getitem_setitem_ne.
    + apply keys_setitem.
Qed.

(** X11. [add_theorem] returns exactly when the label is outside the
    namespace, the normalizer accepts the theorem, and the run of its proof
    against the axioms and theorems of the system ends with a stack that
    holds the assertion of the theorem and nothing else; the theorem is
    then stored as given and nothing else changes. *)
Theorem add_theorem_accepts_iff (self self' : FormalSystem) (label : string)
    (thm : proposition) :
  add_theorem label thm self = (inr tt, self')
  ↔ in_namespace self label = false
    ∧ _check_ self thm = inr thm
    ∧ (∃ trace, run_steps self thm = inr ([prop_a thm], trace))
    ∧ self' = set_theorems (setitem label thm (theorems self)) self.
Proof.
  split.
  - intros H. pose proof H as (-> & Hc & Hp)%add_theorem_inv.
    apply proof_check_inv in Hp as (trace & Hrun & _).
    split_and!; [|done|by exists trace|done].
    unfold_M. by destruct (in_namespace self label).
  - intros (Hf & Hc & (trace & Hrun) & ->). unfold_M. rewrite Hf, Hc.
    by rewrite (final_check_ok _ _ false _ Hrun).
Qed.

(** ** Accepted proofs under later additions *)

Lemma proof_step_stable (self self' : FormalSystem) (thm : proposition)
    (st st' : state) (idx : nat) (step : string) :
  (∀ l, has_key l (axioms self) = true →
        has_key l (axioms self') = true
        ∧ getitem l (axioms self') = getitem l (axioms self)) →
  (∀ l, has_key l (axioms self) = false → has_key l (theorems self) = true →
        has_key l (axioms self') = false
        ∧ has_key l (theorems self') = true
        ∧ getitem l (theorems self') = getitem l (theorems self)) →
  proof_step self thm st (idx, step) = inr st' →
  proof_step self' thm st (idx, step) = inr st'.
Proof.
  intros Hax Hth. unfold proof_step. destruct st as [stack trace].
  destruct (has_key step (prop_t thm)); [done|].
  destruct (has_key step (prop_h thm)); [done|].
  destruct (has_key step (axioms self)) eqn:Ha.
  { destruct (Hax _ Ha) as [-> ->]. done. }
  destruct (has_key step (theorems self)) eqn:Ht; [|done].
  destruct (Hth _ Ha Ht) as (-> & -> & ->). done.
Qed.

Lemma run_call_stable (c : call) (self : FormalSystem) (thm : proposition)
    (st st' : state) (idx : nat) (step : string) :
  rule_label_free c self →
  proof_step self thm st (idx, step) = inr st' →
  proof_step (snd (run_call c self)) thm st (idx, step) = inr st'.
Proof.
  intros Hfree.
  destruct (run_call_state c self)
    as [->|[(k & _ & _ & ->)|[(l & ax & -> & _ & ->)
                             |(l & th & -> & _ & _ & ->)]]];
    [done|done|..]; destruct Hfree as [Hfa Hft];
    apply proof_step_stable; simpl.
  - intros l' Hl'.
    destruct (getitem_setitem_ne l l' ax (axioms self)) as [-> ->];
      [|done]. intros ->. congruence.
  - intros l' Ha Ht. split_and!; [|done..].
    destruct (getitem_setitem_ne l l' ax (axioms self)) as [_ ->]; [|done].
    intros ->. congruence.
  - done.
  - intros l' Ha Ht. split; [done|].
    destruct (getitem_setitem_ne l l' th (theorems self)) as [-> ->];
      [|done]. intros ->. congruence.
Qed.

(** X12. A call that adds a constant, or adds an axiom or a theorem under a
    label that names no axiom and no theorem of the system, keeps every
    proof that checks: a proposition whose proof checks before the call
    checks after it, with the same result. *)
Theorem accepted_proofs_stay (c : call) (self : FormalSystem)
    (thm : proposition) (detailed : bool) (r : check_result) :
  rule_label_free c self →
  _proof_check self thm detailed = inr r →
  _proof_check (snd (run_call c self)) thm detailed = inr r.
Proof.
  intros Hfree Hp.
  destruct (proof_check_inv _ _ _ _ Hp) as (trace & Hrun & ->).
  apply final_check_ok. unfold run_steps in *.
  destruct (proof_steps thm) as [e|steps]; [done|].
  revert Hrun. generalize 1. generalize (([], []) : state).
  induction steps as [|step steps IH]; intros st k; [done|].
  cbn [enumerate]. rewrite !foldM_cons.
  destruct (proof_step self thm st (k, step)) as [e|st1] eqn:Hs; [done|].
  rewrite (run_call_stable _ _ _ _ _ _ _ Hfree Hs). apply IH.
Qed.

(** ** Invariants of the system *)

Lemma Forall_setitem {V : Type} (P : string * V → Prop) (k : string) (v : V)
    (m : dict V) :
  (∀ k', P (k', v)) → Forall P m → Forall P (setitem k v m).
Proof.
  intros Hv. induction 1 as [|[k0 v0] m H0 Hm IH]; simpl.
  - by repeat constructor.
  - case_bool_decide; constructor; auto.
Qed.

Lemma init_inv (cs : option (list string))
    (axs ths : option (dict proposition)) (data : option InitialData)
    (self : FormalSystem) :
  __init__ cs axs ths data = inr self →
  NoDup (constants self)
  ∧ (∀ c, c ∈ constants self → in_namespace self c = true)
  ∧ rules_normal self.
Proof.
  unfold __init__.
  destruct (init_attributes cs axs ths data) as [e|s0]; [done|].
  destruct (build_namespace s0) as [[e|[]] s] eqn:Hb; [done|].
  intros [= ->].
  apply build_namespace_inv in Hb as (_ & Hnd & Hdom & Hax & Hth).
  pose proof Hnd as Hnd'. apply NoDup_app in Hnd' as (Hndc & _ & Hnd').
  apply NoDup_app in Hnd' as (Hnda & _ & Hndt).
  split_and!.
  - done.
  - intros c Hc. unfold in_namespace. apply bool_decide_eq_true.
    apply elem_of_dom. rewrite Hdom. apply elem_of_list_to_set.
    apply elem_of_app. by left.
  - rewrite Forall_forall in Hax, Hth. split; apply Forall_forall;
      intros [k v] Hin; simpl.
    + destruct (Hax k) as (v' & Hg & Hn).
      { apply list_elem_of_fmap. by exists (k, v). }
      rewrite (getitem_elem _ _ _ Hnda Hin) in Hg. by simplify_eq.
    + destruct (Hth k) as (v' & Hg & Hn & _).
      { apply list_elem_of_fmap. by exists (k, v). }
      rewrite (getitem_elem _ _ _ Hndt Hin) in Hg. by simplify_eq.
Qed.

Lemma run_call_inv (c : call) (self : FormalSystem) :
  NoDup (constants self)
  ∧ (∀ k, k ∈ constants self → in_namespace self k = true)
  ∧ rules_normal self →
  NoDup (constants (snd (run_call c self)))
  ∧ (∀ k, k ∈ constants (snd (run_call c self)) →
          in_namespace (snd (run_call c self)) k = true)
  ∧ rules_normal (snd (run_call c self)).
Proof.
  intros (Hnd & Hreg & Hax & Hth).
  destruct (run_call_state c self)
    as [->|[(k & _ & Hk & ->)|[(l & ax & _ & Hc & ->)
                              |(l & th & _ & Hc & _ & ->)]]]; simpl.
  - done.
  - split_and!; [| |done].
    + apply NoDup_app. split_and!; [done| |apply NoDup_singleton].
      intros y Hy ->%list_elem_of_singleton. apply Hreg in Hy. congruence.
    + intros k' Hk'. unfold in_namespace. simpl. apply bool_decide_eq_true.
      rewrite lookup_insert. case_decide; [by eexists|].
      apply elem_of_app in Hk' as [Hk'|Hk'%list_elem_of_singleton]; [|done].
      apply Hreg in Hk'. by apply bool_decide_eq_true in Hk'.
  - split_and!; [done..|]. split; [|done]. simpl.
    apply Forall_setitem; [|done]. intros ?. by exists self.
  - split_and!; [done..|]. split; [done|]. simpl.
    apply Forall_setitem; [|done]. intros ?. by exists self.
Qed.

(** X13. In a system built by the constructor, and after every sequence of
    calls of the three additions on it, the constants are pairwise
    different and each of them is in the namespace. *)
Theorem constants_stay_distinct (cs : option (list string))
    (axs ths : option (dict proposition)) (data : option InitialData)
    (self : FormalSystem) (calls : list call) :
  __init__ cs axs ths data = inr self →
  NoDup (constants (after_calls calls self))
  ∧ ∀ c, c ∈ constants (after_calls calls self) →
         in_namespace (after_calls calls self) c = true.
Proof.
  intros Hinit%init_inv.
  assert (NoDup (constants (after_calls calls self))
          ∧ (∀ k, k ∈ constants (after_calls calls self) →
                  in_namespace (after_calls calls self) k = true)
          ∧ rules_normal (after_calls calls self)) as (? & ? & _); [|done].
  induction calls as [|c calls IH] using rev_ind; [done|].
  rewrite after_calls_snoc. by apply run_call_inv.
Qed.


(** ** The exceptions of the interpreter under the typecode convention *)

Lemma elem_of_enumerate {A : Type} (k i : nat) (x : A) (l : list A) :
  (i, x) ∈ enumerate k l → x ∈ l ∧ k ≤ i < k + length l.
Proof.
  revert k. induction l as [|y l IH]; intros k; simpl.
  - by intros ?%elem_of_nil.
  - intros [Heq|Hin]%elem_of_cons.
    + simplify_eq. split; [left|lia].
    + apply IH in Hin as [? ?]. split; [by right|lia].
Qed.

Lemma unify_kinds (self : FormalSystem) (rule rule' : proposition)
    (args : list string) (trace : list trace_line) (e : exn) :
  _check_ self rule = inr rule' → has_tokens args →
  unify rule args trace = inl e → e = Raised TypeMismatch.
Proof.
  intros Hc Hargs. apply check_inv in Hc as (nn & vs & _ & Hdecl & _ & _).
  unfold unify. apply (foldM_error_in (λ e, e = Raised TypeMismatch)).
  intros [subs tr] [lbl expr] e' Hin. unfold unify_entry, index.
  assert (lbl ∈ keys (prop_t rule)) as Hlbl.
  { apply (elem_of_zip_l _ _ _ _ Hin). }
  assert (expr ∈ args) as Hexpr.
  { apply elem_of_zip_r, elem_of_take in Hin as (j & Hj & _).
    by eapply list_elem_of_lookup_2. }
  apply list_elem_of_lookup_1 in Hlbl as [i Hi].
  destruct (Forall2_lookup_l _ _ _ _ _ Hdecl Hi)
    as (x & _ & tv & c & -> & ->).
  unfold has_tokens in Hargs. rewrite Forall_forall in Hargs.
  specialize (Hargs _ Hexpr).
  destruct (split expr) as [|tok0 toks]; [done|]. simpl.
  rewrite lookup_insert_eq. case_bool_decide; [|done]. by intros [= <-].
Qed.

Lemma match_hyps_kinds (rule : proposition) (subs : gmap string string)
    (args : list string) (trace : list trace_line) (e : exn) :
  length args = length (prop_t rule) + length (prop_h rule) →
  match_hyps rule subs args trace = inl e → e = Raised HypothesisMismatch.
Proof.
  intros Hlen. unfold match_hyps.
  apply (foldM_error_in (λ e, e = Raised HypothesisMismatch)).
  intros tr [i h_lbl] e' Hin. apply elem_of_enumerate in Hin as [Hh Hi].
  unfold keys in Hi. rewrite !length_fmap in Hi.
  unfold hyp_entry, index.
  destruct (getitem_has_key h_lbl (prop_h rule)) as (h_pat & -> & _).
  { by apply bool_decide_eq_true. }
  destruct (lookup_lt_is_Some_2 args i) as [actual ->]; [lia|].
  case_bool_decide; [|done]. by intros [= <-].
Qed.

Lemma substitute_has_token (rule : proposition) (xs : list string)
    (subs : gmap string string) :
  typecode_first rule →
  Forall2 (declares rule) (keys (prop_t rule)) xs →
  dom subs = list_to_set xs →
  split (substitute subs (prop_a rule)) ≠ [].
Proof.
  intros (c & rest & Ha & Hc) Hdecl Hdom.
  assert (subs !! c = None) as Hnone.
  { apply not_elem_of_dom. rewrite Hdom. intros Hin%elem_of_list_to_set.
    apply list_elem_of_lookup_1 in Hin as [i Hi].
    destruct (Forall2_lookup_r _ _ _ _ _ Hdecl Hi) as (k & _ & Hk).
    by apply (Hc k). }
  unfold substitute. rewrite split_join, Ha. simpl. rewrite Hnone. simpl.
  rewrite (split_token (prop_a rule) c) by (rewrite Ha; left). done.
Qed.

Lemma apply_rule_kinds (self : FormalSystem) (rule rule' : proposition)
    (knd : kind) (idx : nat) (step : string) (stack : list string)
    (trace : list trace_line) :
  _check_ self rule = inr rule' → typecode_first rule → has_tokens stack →
  match apply_rule rule knd idx step (stack, trace) with
  | inr (stack', _) => has_tokens stack'
  | inl e => e ∈ proof_kinds
  end.
Proof.
  intros Hc Hhead Hstack. unfold apply_rule, proof_kinds.
  destruct (length stack <? _) eqn:Hlt.
  { rewrite !elem_of_cons. tauto. }
  apply Nat.ltb_ge in Hlt.
  destruct (pop_n_ok _ _ Hlt) as (popped & rest & Hpop). rewrite Hpop.
  apply pop_n_inv in Hpop as [-> Hlen].
  unfold has_tokens in Hstack. apply Forall_app in Hstack as [Hrest Hargs].
  destruct (unify _ _ _) as [e|[subs tr1]] eqn:Hu.
  { apply (unify_kinds _ _ _ _ _ _ Hc Hargs) in Hu as ->.
    rewrite !elem_of_cons. tauto. }
  destruct (distinct_check_spec rule subs (check_d_shaped _ _ _ Hc))
    as [[-> _]|[-> _]].
  { rewrite !elem_of_cons. tauto. }
  destruct (match_hyps _ _ _ _) as [e|tr2] eqn:Hm.
  { apply match_hyps_kinds in Hm as ->.
    - rewrite !elem_of_cons. tauto.
    - rewrite length_reverse, Hlen, length_app. unfold keys.
      by rewrite !length_fmap. }
  apply Forall_app. split; [done|]. constructor; [|constructor].
  apply check_inv in Hc as (nn & vs & _ & Hdecl & _ & _).
  eapply substitute_has_token; [done..|].
  unfold unify in Hu. eapply unify_fold_dom in Hu.
  - rewrite Hu, dom_empty_L, union_empty_l_L. done.
  - rewrite fst_zip; [done|].
    rewrite length_take, length_reverse, Hlen, length_app. lia.
Qed.

(** X15. In a system whose axioms and theorems are accepted by the
    normalizer and have an assertion that starts with a token other than
    their variables, the check of a proposition with a proof, whose typing
    entries and hypotheses each have a token, raises nothing but
    [UnknownStep], [StackUnderflow], [TypeMismatch], [DistinctViolation],
    [HypothesisMismatch] and [MalformedProof]. *)
Theorem interpreter_raises_kinds (self : FormalSystem) (thm : proposition)
    (detailed : bool) (e : exn) :
  (∀ l rule, (l, rule) ∈ axioms self ∨ (l, rule) ∈ theorems self →
             (∃ s, _check_ s rule = inr rule) ∧ typecode_first rule) →
  prop_p thm ≠ None →
  (∀ k v, (k, v) ∈ prop_t thm ∨ (k, v) ∈ prop_h thm → split v ≠ []) →
  _proof_check self thm detailed = inl e →
  e ∈ proof_kinds.
Proof.
  intros Hrules Hp Hthm.
  assert (∀ steps k stack trace,
    has_tokens stack →
    match foldM (proof_step self thm) (enumerate k steps) (stack, trace) with
    | inr (stack', _) => has_tokens stack'
    | inl e => e ∈ proof_kinds
    end) as Hrun.
  { induction steps as [|step steps IH]; intros k stack trace Hstack;
      [done|].
    cbn [enumerate]. rewrite foldM_cons.
    assert (match proof_step self thm (stack, trace) (k, step) with
            | inr (stack', _) => has_tokens stack'
            | inl e => e ∈ proof_kinds
            end) as Hstep.
    { unfold proof_step.
      destruct (has_key step (prop_t thm)) eqn:Ht.
      { destruct (getitem_has_key _ _ Ht) as (v & -> & Hin).
        apply Forall_app. split; [done|]. constructor; [|constructor].
        apply (Hthm step). by left. }
      destruct (has_key step (prop_h thm)) eqn:Hh.
      { destruct (getitem_has_key _ _ Hh) as (v & -> & Hin).
        apply Forall_app. split; [done|]. constructor; [|constructor].
        apply (Hthm step). by right. }
      destruct (has_key step (axioms self)) eqn:Ha.
      { destruct (getitem_has_key _ _ Ha) as (rule & -> & Hin).
        destruct (Hrules step rule) as [[s Hc] Hhead]; [by left|].
        by eapply apply_rule_kinds. }
      destruct (has_key step (theorems self)) eqn:Hth.
      { destruct (getitem_has_key _ _ Hth) as (rule & -> & Hin).
        destruct (Hrules step rule) as [[s Hc] Hhead]; [by right|].
        by eapply apply_rule_kinds. }
      unfold proof_kinds. rewrite !elem_of_cons. tauto. }
    destruct (proof_step self thm (stack, trace) (k, step))
      as [e'|[stack1 trace1]]; [done|]. by apply IH. }
  unfold _proof_check, run_steps, proof_steps.
  destruct (prop_p thm) as [[s|l]|]; [| |done].
  - specialize (Hrun (split s) 1 [] [] (Forall_nil_2 _)).
    destruct (foldM _ _ _) as [e'|[stack trace]]; [by intros [= <-]|].
    unfold index, proof_kinds.
    destruct stack as [|top [|? ?]]; simpl;
      [|case_bool_decide|]; intros [= <-]; rewrite !elem_of_cons; tauto.
  - specialize (Hrun l 1 [] [] (Forall_nil_2 _)).
    destruct (foldM _ _ _) as [e'|[stack trace]]; [by intros [= <-]|].
    unfold index, proof_kinds.
    destruct stack as [|top [|? ?]]; simpl;
      [|case_bool_decide|]; intros [= <-]; rewrite !elem_of_cons; tauto.
Qed.

(** ** Proof steps that name a theorem of the mapping under construction *)

Lemma check_tokens_ok (self : FormalSystem) (vs : list string) (v : string) :
  (∀ tok, tok ∈ split v → tok ∈ constants self ∨ tok ∈ vs) →
  check_tokens self vs v = inr tt.
Proof.
  unfold check_tokens. induction (split v) as [|t ts IH]; intros H; [done|].
  rewrite foldM_cons. unfold assert at 1, token_ok, elem.
  destruct (H t) as [Ht|Ht]; [left| |].
  - rewrite (bool_decide_eq_true_2 _ Ht). simpl. apply IH.
    intros tok Htok. apply H. by right.
  - rewrite (bool_decide_eq_true_2 (t ∈ vs) Ht), orb_true_r. apply IH.
    intros tok Htok. apply H. by right.
Qed.

Lemma check_cites (self : FormalSystem) (l a : string) :
  (∀ tok, tok ∈ split a → tok ∈ constants self) →
  _check_ self (cites l a) = inr (cites l a).
Proof.
  intros Ha. unfold _check_, cites, check_t. simpl.
  rewrite check_tokens_ok by (intros tok Htok; left; by apply Ha).
  unfold assert. rewrite bool_decide_eq_true_2; [done|].
  apply set_eq. intros x. rewrite elem_of_difference, elem_of_empty. tauto.
Qed.

Lemma substitute_empty (a : string) :
  substitute ∅ a = join " " (split a).
Proof.
  unfold substitute. f_equal. induction (split a) as [|t ts IH]; [done|].
  simpl. by rewrite lookup_empty, IH.
Qed.

Lemma has_key_getitem {V : Type} (k : string) (v : V) (m : dict V) :
  getitem k m = inr v → has_key k m = true.
Proof.
  unfold has_key, keys. rewrite bool_decide_eq_true.
  induction m as [|[k' v'] m IH]; simpl; [done|].
  case_bool_decide; [subst; left|right; by apply IH].
Qed.

Lemma proof_cites_itself (self : FormalSystem) (l a : string) :
  has_key l (axioms self) = false →
  getitem l (theorems self) = inr (cites l a) →
  join " " (split a) = a →
  _proof_check self (cites l a) false = inr CTrue.
Proof.
  intros Hax Hg Hnorm.
  apply (final_check_ok self (cites l a) false
           [TrApply 1 Ktheorem l []; TrConclude a]).
  unfold run_steps, proof_steps. cbn [cites prop_p enumerate].
  rewrite foldM_cons. unfold proof_step at 1.
  assert (has_key l (prop_t (cites l a)) = false) as -> by done.
  assert (has_key l (prop_h (cites l a)) = false) as -> by done.
  rewrite Hax, (has_key_getitem _ _ _ Hg), Hg.
  unfold apply_rule, unify, distinct_check, match_hyps. simpl.
  by rewrite substitute_empty, Hnorm.
Qed.

Lemma for_each_constants (cs : list string) (s : FormalSystem) :
  NoDup cs → (∀ c, c ∈ cs → namespace s !! c = None) →
  ∃ s', for_each cs init_constant s = (inr tt, s')
        ∧ same_data s s'
        ∧ dom (namespace s') = dom (namespace s) ∪ list_to_set cs.
Proof.
  revert s. induction cs as [|c cs IH]; intros s Hnd Hfresh.
  - exists s. split_and!; [done..|]. simpl. by rewrite union_empty_r_L.
  - apply NoDup_cons in Hnd as [Hc Hnd].
    destruct (IH (set_namespace (<[c := Kconstant]> (namespace s)) s) Hnd)
      as (s' & Hrun & Hsame & Hdom).
    { intros c' Hc'. simpl. rewrite lookup_insert_ne; [|by intros ->].
      apply Hfresh. by right. }
    exists s'. split_and!.
    + simpl. unfold bind, init_constant, check_fresh, register, bind, read,
        update, ret, raise, in_namespace.
      rewrite bool_decide_eq_false_2; [done|].
      rewrite (Hfresh c) by left. by intros [? ?].
    + done.
    + rewrite Hdom. simpl. rewrite dom_insert_L. apply set_eq. intros y.
      rewrite !elem_of_union, elem_of_singleton. tauto.
Qed.

Lemma bind_ok {A B : Type} (m : M A) (k : A → M B) (s s' : FormalSystem)
    (x : A) :
  m s = (inr x, s') → bind m k s = k x s'.
Proof. intros H. unfold bind. by rewrite H. Qed.

Lemma set_theorems_same (s : FormalSystem) (l : string) (th : proposition) :
  getitem l (theorems s) = inr th →
  set_theorems (setitem l th (theorems s)) s = s.
Proof. intros H. rewrite setitem_same by done. by destruct s. Qed.

Lemma init_theorem_cites (s : FormalSystem) (l a : string) :
  namespace s !! l = None →
  getitem l (theorems s) = inr (cites l a) →
  has_key l (axioms s) = false →
  (∀ tok, tok ∈ split a → tok ∈ constants s) →
  join " " (split a) = a →
  init_theorem l s
  = (inr tt, set_namespace (<[l := Ktheorem]> (namespace s)) s).
Proof.
  intros Hfresh Hg Hax Ha Hnorm. unfold init_theorem.
  set (s1 := set_namespace (<[l := Ktheorem]> (namespace s)) s).
  rewrite (bind_ok _ _ s s tt).
  2:{ unfold check_fresh. rewrite (bind_ok _ _ s s false); [done|].
      unfold read, in_namespace. rewrite bool_decide_eq_false_2; [done|].
      rewrite Hfresh. by intros [? ?]. }
  rewrite (bind_ok _ _ s s1 tt) by done.
  rewrite (bind_ok _ _ s1 s1 (cites l a)).
  2:{ unfold read. simpl. rewrite Hg. by rewrite check_cites. }
  rewrite (bind_ok _ _ s1 s1 tt).
  2:{ unfold update. by rewrite set_theorems_same. }
  rewrite (bind_ok _ _ s1 s1 CTrue); [done|].
  unfold read. simpl. rewrite Hg. by rewrite proof_cites_itself.
Qed.

(** X16. The constructor checks the proof of a theorem against the whole
    mapping of theorems it was given, the theorem itself included: a
    theorem without variables and hypotheses whose assertion is made of
    constants, single spaces between them, and whose proof is the single
    step naming the theorem itself, is accepted by the constructor. The same
    theorem is rejected with [UnknownStep] by [add_theorem] on the system
    built from the constants alone. *)
Theorem init_accepts_self_reference (cs : list string) (l a : string) :
  NoDup cs → l ∉ cs →
  (∀ tok, tok ∈ split a → tok ∈ cs) →
  join " " (split a) = a →
  (∃ self,
     __init__ (Some cs) (Some []) (Some [(l, cites l a)]) None = inr self
     ∧ constants self = cs ∧ axioms self = []
     ∧ theorems self = [(l, cites l a)])
  ∧ ∀ self,
      __init__ (Some cs) (Some []) (Some []) None = inr self →
      add_theorem l (cites l a) self = (inl (Raised UnknownStep), self).
Proof.
  intros Hnd Hl Ha Hnorm. split.
  - set (s0 := System cs [] [(l, cites l a)] ∅).
    destruct (for_each_constants cs s0 Hnd)
      as (s1 & Hrun & (Hc & Hax & Hth) & Hdom); [done|].
    simpl in Hc, Hax, Hth, Hdom.
    rewrite dom_empty_L, union_empty_l_L in Hdom.
    exists (set_namespace (<[l := Ktheorem]> (namespace s1)) s1).
    split; [|simpl; by rewrite <- Hc, <- Hax, <- Hth].
    unfold __init__, init_attributes. fold s0. unfold build_namespace.
    rewrite (bind_ok _ _ s0 s0 tt) by done.
    rewrite (bind_ok _ _ s0 s0 cs) by done.
    rewrite (bind_ok _ _ s0 s1 tt) by done.
    rewrite (bind_ok _ _ s1 s1 []) by (unfold read; by rewrite <- Hax).
    rewrite (bind_ok _ _ s1 s1 tt) by done.
    rewrite (bind_ok _ _ s1 s1 [l]) by (unfold read; by rewrite <- Hth).
    cbn [for_each].
    assert (init_theorem l s1
            = (inr tt, set_namespace (<[l := Ktheorem]> (namespace s1)) s1))
      as Hthm.
    { apply (init_theorem_cites s1 l a); [| | | |done].
      - apply not_elem_of_dom. rewrite Hdom. by rewrite elem_of_list_to_set.
      - rewrite <- Hth. simpl. by rewrite bool_decide_eq_true_2.
      - by rewrite <- Hax.
      - by rewrite <- Hc. }
    by rewrite (bind_ok _ _ s1 _ tt Hthm).
  - intros self Hinit. unfold __init__ in Hinit. simpl in Hinit.
    destruct (build_namespace _) as [[e|[]] s] eqn:Hb; [done|].
    simplify_eq.
    apply build_namespace_inv in Hb as ((Hc & Hax & Hth) & _ & Hdom & _).
    simpl in *. unfold_M.
    assert (in_namespace self l = false) as ->.
    { unfold in_namespace. apply bool_decide_eq_false.
      rewrite <- elem_of_dom, Hdom, <- Hc, <- Hax, <- Hth. simpl.
      rewrite !app_nil_r. by rewrite elem_of_list_to_set. }
    rewrite check_cites by (by rewrite <- Hc).
    unfold _proof_check, run_steps, proof_steps. cbn [cites prop_p enumerate].
    rewrite foldM_cons. unfold proof_step at 1.
    assert (has_key l (prop_t (cites l a)) = false) as -> by done.
    assert (has_key l (prop_h (cites l a)) = false) as -> by done.
    by rewrite <- Hax, <- Hth.
Qed.

(** ** The propositions that the normalizer accepts *)

Lemma in_namespace_fresh (self : FormalSystem) (x : string) :
  fresh_name self x → in_namespace self x = false.
Proof.
  unfold fresh_name, in_namespace. intros H. apply bool_decide_eq_false.
  rewrite H. by intros [? ?].
Qed.

Lemma check_t_fold_ok (self : FormalSystem) (prop : proposition)
    (ks xs nn0 vs0 : list string) :
  Forall2 (λ k x, ∃ tv c, getitem k (prop_t prop) = inr tv
                          ∧ split tv = [c; x] ∧ c ∈ constants self) ks xs →
  NoDup (nn0 ++ ks ++ xs) → Forall (fresh_name self) (ks ++ xs) →
  (∀ y, y ∈ vs0 → y ∈ nn0) →
  ∃ nn, foldM (check_t_entry self prop) ks (nn0, vs0) = inr (nn, vs0 ++ xs).
Proof.
  intros Hall. revert nn0 vs0.
  induction Hall as [|k x ks xs (tv & c & Hg & Hs & Hc) Hall IH];
    intros nn0 vs0 Hnd Hfr Hsub.
  - exists nn0. by rewrite app_nil_r.
  - rewrite foldM_cons.
    assert (fresh_name self k ∧ fresh_name self x) as [Hfk Hfx].
    { rewrite Forall_forall in Hfr. split; apply Hfr.
      - left.
      - apply elem_of_app. right. left. }
    assert (NoDup (((nn0 ++ [k]) ++ [x]) ++ ks ++ xs)) as Hnd1.
    { eapply NoDup_Permutation_proper; [|exact Hnd].
      rewrite <- !app_assoc. apply Permutation_app_head. simpl.
      constructor. by rewrite Permutation_middle. }
    pose proof Hnd1 as Hnd2. apply NoDup_app in Hnd2 as (Hnd2 & _ & _).
    apply NoDup_app in Hnd2 as (Hnd3 & Hx & _).
    apply NoDup_app in Hnd3 as (_ & Hk & _).
    assert (k ∉ nn0) as Hk'.
    { intros Hin. apply (Hk _ Hin). left. }
    assert (x ∉ nn0 ++ [k]) as Hx'.
    { intros Hin. apply (Hx _ Hin). left. }
    assert (x ∉ vs0) as Hxv.
    { intros Hin. apply Hx'. apply elem_of_app. left. by apply Hsub. }
    destruct (IH ((nn0 ++ [k]) ++ [x]) (vs0 ++ [x]) Hnd1)
      as [nn Hnn].
    { rewrite Forall_forall in *. intros y Hy. apply Hfr.
      apply elem_of_app in Hy as [Hy|Hy].
      - right. apply elem_of_app. by left.
      - apply elem_of_app. right. by right. }
    { intros y [Hy|Hy%list_elem_of_singleton]%elem_of_app.
      - apply elem_of_app. left. apply elem_of_app. left. by apply Hsub.
      - subst. apply elem_of_app. right. left. }
    exists nn. rewrite (cons_middle x vs0 xs), app_assoc, <- Hnn.
    unfold check_t_entry, assert, elem.
    rewrite (in_namespace_fresh _ _ Hfk).
    rewrite (bool_decide_eq_false_2 _ Hk'). simpl. rewrite Hg, Hs.
    rewrite (bool_decide_eq_true_2 _ Hc), (in_namespace_fresh _ _ Hfx).
    rewrite (bool_decide_eq_false_2 _ Hx'), (bool_decide_eq_false_2 _ Hxv).
    done.
Qed.

Lemma check_h_fold_ok (self : FormalSystem) (nn vs : list string)
    (hs : dict string) (hn0 : list string) :
  Forall (fresh_name self) (keys hs) →
  (∀ k, k ∈ keys hs → k ∉ nn) → NoDup (hn0 ++ keys hs) →
  Forall (λ kv, ∀ tok, tok ∈ split kv.2 →
                       tok ∈ constants self ∨ tok ∈ vs) hs →
  foldM (check_h_entry self nn vs) hs hn0 = inr (hn0 ++ keys hs).
Proof.
  revert hn0. induction hs as [|[k v] hs IH]; intros hn0 Hfr Hnn Hnd Htok.
  - simpl. by rewrite app_nil_r.
  - rewrite foldM_cons. unfold keys in *. rewrite fmap_cons in *.
    cbn [fst] in *.
    apply Forall_cons in Hfr as [Hfk Hfr].
    apply Forall_cons in Htok as [Hv Htok]. simpl in Hv.
    rewrite (cons_middle k hn0), app_assoc in Hnd.
    pose proof Hnd as Hnd'. apply NoDup_app in Hnd' as (Hnd' & _ & _).
    apply NoDup_app in Hnd' as (_ & Hk & _).
    assert (check_h_entry self nn vs hn0 (k, v) = inr (hn0 ++ [k])) as ->.
    { unfold check_h_entry, assert, elem.
      rewrite (in_namespace_fresh _ _ Hfk).
      rewrite (bool_decide_eq_false_2 (k ∈ nn)) by (apply Hnn; left).
      rewrite (bool_decide_eq_false_2 (k ∈ hn0)).
      2:{ intros Hin. apply (Hk _ Hin). left. }
      simpl. by rewrite (check_tokens_ok _ _ _ Hv). }
    rewrite (cons_middle k hn0 hs.*1), (app_assoc hn0 [k]).
    apply IH; [done| |done..].
    intros k' Hk'. apply Hnn. by right.
Qed.

Lemma check_d_fold_ok (self : FormalSystem) (nn vs hn : list string)
    (ds : dict string) (dn0 : list string) :
  Forall (fresh_name self) (keys ds) →
  (∀ k, k ∈ keys ds → (k ∉ nn) ∧ (k ∉ hn)) → NoDup (dn0 ++ keys ds) →
  Forall (distinct_pair vs) ds →
  foldM (check_d_entry self nn vs hn) ds dn0 = inr (dn0 ++ keys ds).
Proof.
  revert dn0. induction ds as [|[k v] ds IH]; intros dn0 Hfr Hnn Hnd Hd.
  - simpl. by rewrite app_nil_r.
  - rewrite foldM_cons. unfold keys in *. rewrite fmap_cons in *.
    cbn [fst] in *.
    apply Forall_cons in Hfr as [Hfk Hfr].
    apply Forall_cons in Hd as [(v1 & v2 & Hs & H1 & H2 & Hne) Hd].
    rewrite (cons_middle k dn0), app_assoc in Hnd.
    pose proof Hnd as Hnd'. apply NoDup_app in Hnd' as (Hnd' & _ & _).
    apply NoDup_app in Hnd' as (_ & Hk & _).
    destruct (Hnn k) as [Hk1 Hk2]; [left|].
    assert (check_d_entry self nn vs hn dn0 (k, v) = inr (dn0 ++ [k])) as ->.
    { unfold check_d_entry, assert, elem.
      rewrite (in_namespace_fresh _ _ Hfk).
      rewrite (bool_decide_eq_false_2 (k ∈ nn)) by done.
      rewrite (bool_decide_eq_false_2 (k ∈ hn)) by done.
      rewrite (bool_decide_eq_false_2 (k ∈ dn0)).
      2:{ intros Hin. apply (Hk _ Hin). left. }
      simpl in *. rewrite Hs.
      rewrite (bool_decide_eq_true_2 _ H1), (bool_decide_eq_true_2 _ H2).
      by rewrite (bool_decide_eq_false_2 _ Hne). }
    rewrite (cons_middle k dn0 ds.*1), (app_assoc dn0 [k]).
    apply IH; [done| |done..].
    intros k' Hk'. apply Hnn. by right.
Qed.

(** A proposition accepted by the normalizer has the invariants. *)
Lemma check_well_formed (self : FormalSystem) (prop prop' : proposition) :
  _check_ self prop = inr prop' →
  ∃ nn vs, check_t self prop = inr (nn, vs) ∧ well_formed self prop vs.
Proof.
  intros Hc.
  destruct (check_stages _ _ _ Hc)
    as (nn & vs & hn & dn & Ht & Hh & Ha & Hd & Hm).
  exists nn, vs. split; [done|].
  pose proof (check_inv _ _ _ Hc) as (nn' & vs' & Ht' & _ & Hndk & _).
  unfold check_t in Ht.
  apply check_t_fold_names in Ht
    as (xs & Hvs & _ & Hperm & Hnd & _ & Hfr & Hall);
    [|intros ? Hx; by apply elem_of_nil in Hx|constructor].
  simpl in Hvs, Hperm. subst xs.
  pose proof (check_d_fold _ _ _ _ _ _ _ Hd) as Hpairs.
  apply check_h_fold in Hh as (Hhn & Hfh & Hndh & Htok). simpl in Hhn.
  subst hn.
  apply check_d_fold_names in Hd as (Hdn & Hfd & Hndd). simpl in Hdn.
  subst dn. rewrite Hperm in Hnd.
  rewrite Forall_forall in Hfh, Hfd.
  split_and!.
  - apply Forall2_same_length_lookup.
    apply Forall2_same_length_lookup in Hall as [Hlen Hall]. split.
    { unfold keys in Hlen. by rewrite length_fmap in Hlen. }
    intros i [k v] x Hkv Hx.
    destruct (Hall i k x) as (tv & c & Hg & Hs & Hcst); [|done|].
    { unfold keys, dict in *. by rewrite list_lookup_fmap, Hkv. }
    apply list_elem_of_lookup_2 in Hkv.
    rewrite (getitem_elem _ _ _ Hndk Hkv) in Hg. simplify_eq. by exists c.
  - rewrite app_assoc. apply NoDup_app. split_and!; [done| |].
    + intros y Hy Hy'. apply elem_of_app in Hy' as [Hy'|Hy'].
      * destruct (Hfh _ Hy') as [_ Hn]. apply Hn. by rewrite Hperm.
      * destruct (Hfd _ Hy') as (_ & Hn & _). apply Hn. by rewrite Hperm.
    + apply NoDup_app. split_and!.
      * apply Hndh. constructor.
      * intros y Hy Hy'. destruct (Hfd _ Hy') as (_ & _ & Hn). done.
      * apply (Hndd (NoDup_nil_2)).
  - rewrite app_assoc. apply Forall_app. split; [done|].
    apply Forall_app. split; apply Forall_forall; intros y Hy.
    + by destruct (Hfh _ Hy).
    + by destruct (Hfd _ Hy).
  - done.
  - by apply check_tokens_inv.
  - done.
  - intros x Hx.
    assert (x ∈ used_vars vs prop) as Hu.
    { destruct (decide (x ∈ used_vars vs prop)) as [|Hn]; [done|].
      exfalso. apply (not_elem_of_empty (C := gset string) x).
      rewrite <- Hm. apply elem_of_difference. split; [|done].
      by apply elem_of_list_to_set. }
    by apply used_vars_spec in Hu as [_ ?].
Qed.

(** X17. The normalizer accepts a proposition exactly when it has the
    invariants for some list of variables: each typing entry is a constant
    followed by a variable, the typing labels, variables, hypothesis labels
    and distinct labels are pairwise different and outside the namespace,
    every token of a hypothesis or of the assertion is a constant or a
    variable, each distinct entry holds two different variables, and every
    variable occurs in a hypothesis or in the assertion. *)
Theorem check_accepts_iff (self : FormalSystem) (prop : proposition) :
  _check_ self prop = inr prop ↔ ∃ vs, well_formed self prop vs.
Proof.
  split.
  - intros Hc. destruct (check_well_formed _ _ _ Hc) as (nn & vs & _ & Hwf).
    by exists vs.
  - intros (vs & Hent & Hnd & Hfr & Htok & Ha & Hd & Hused).
    assert (NoDup (keys (prop_t prop))) as Hndk.
    { by apply NoDup_app in Hnd as (? & _ & _). }
    assert (∃ nn, check_t self prop = inr (nn, vs)) as [nn Ht].
    { unfold check_t.
      apply (check_t_fold_ok self prop (keys (prop_t prop)) vs [] []).
      - apply Forall2_same_length_lookup.
        apply Forall2_same_length_lookup in Hent as [Hlen Hent]. split.
        { unfold keys. by rewrite length_fmap. }
        intros i k x Hk Hx. unfold keys in Hk.
        rewrite list_lookup_fmap in Hk.
        apply fmap_Some in Hk as ([k' v] & Hkv & ->). simpl.
        destruct (Hent _ _ _ Hkv Hx) as (c & Hs & Hc).
        exists v, c. split_and!; [|done..].
        apply getitem_elem; [done|]. by eapply list_elem_of_lookup_2.
      - simpl. rewrite app_assoc in Hnd. by apply NoDup_app in Hnd as [? _].
      - rewrite app_assoc in Hfr. by apply Forall_app in Hfr as [? _].
      - intros y Hy. by apply elem_of_nil in Hy. }
    pose proof Ht as Hnames. unfold check_t in Hnames.
    apply check_t_fold_names in Hnames
      as (xs & Hvs & _ & Hperm & _ & _ & _ & _);
      [|intros ? Hx; by apply elem_of_nil in Hx|constructor].
    simpl in Hvs, Hperm. subst xs.
    rewrite app_assoc in Hnd, Hfr.
    apply NoDup_app in Hnd as (_ & Hdisj & Hnd).
    apply Forall_app in Hfr as [_ Hfr].
    apply NoDup_app in Hnd as (Hndh & Hdisj' & Hndd).
    apply Forall_app in Hfr as [Hfh Hfd].
    unfold _check_. rewrite Ht.
    rewrite (check_h_fold_ok self nn vs (prop_h prop) []); cycle 1.
    { done. }
    { intros k Hk Hin. rewrite Hperm in Hin. apply (Hdisj _ Hin).
      apply elem_of_app. by left. }
    { done. }
    { done. }
    rewrite check_tokens_ok by done.
    rewrite (check_d_fold_ok self nn vs _ (prop_d prop) []); cycle 1.
    { done. }
    { intros k Hk. split.
      - intros Hin. rewrite Hperm in Hin. apply (Hdisj _ Hin).
        apply elem_of_app. by right.
      - intros Hin. by apply (Hdisj' _ Hin). }
    { done. }
    { done. }
    unfold assert. rewrite bool_decide_eq_true_2; [by destruct prop|].
    apply set_eq. intros x.
    rewrite elem_of_difference, elem_of_list_to_set, used_vars_spec,
      elem_of_empty.
    split; [|done]. intros [Hx Hn]. apply Hn. split; [done|]. by apply Hused.
Qed.

(** ** The properties at the small database *)

(** The tokens of the hypothesis ['min'] of [axmp]. *)
Lemma check_tokens_declared_witness :
  "ph" ∈ constants Scenario.base ∨ "ph" ∈ ["ph"; "ps"].
Proof.
  apply (proj1 (check_tokens_declared Scenario.base ModusPonens.axmp
                  ModusPonens.axmp ["wph"; "ph"; "wps"; "ps"] ["ph"; "ps"]
                  ltac:(vm_compute; reflexivity)
                  ltac:(vm_compute; reflexivity)) "min" "|- ph" "ph").
  - left.
  - vm_compute. right. left.
Defined.

(** The variable ['ps'] of [axmp] occurs in ['maj'] and in the assertion. *)
Lemma check_no_dead_variable_witness :
  (∃ k v, (k, v) ∈ prop_h ModusPonens.axmp ∧ "ps" ∈ split v)
  ∨ "ps" ∈ split (prop_a ModusPonens.axmp).
Proof.
  apply (check_no_dead_variable Scenario.base ModusPonens.axmp
           ModusPonens.axmp ["wph"; "ph"; "wps"; "ps"] ["ph"; "ps"]
           ltac:(vm_compute; reflexivity) ltac:(vm_compute; reflexivity)).
  right. left.
Defined.

(** The local names of [axmp]. *)
Lemma check_local_names_fresh_witness :
  NoDup (["wph"; "wps"] ++ ["ph"; "ps"] ++ ["min"; "maj"] ++ []).
Proof.
  apply (proj1 (check_local_names_fresh Scenario.base ModusPonens.axmp
                  ModusPonens.axmp ["wph"; "ph"; "wps"; "ps"] ["ph"; "ps"]
                  ltac:(vm_compute; reflexivity)
                  ltac:(vm_compute; reflexivity))).
Defined.

(** The axiom with the undeclared token ['ph'] is rejected with a kind. *)
Lemma check_raises_kinds_witness : Raised UnknownToken ∈ check_kinds.
Proof.
  apply (check_raises_kinds Scenario.base Scenario.wnew). vm_compute.
  reflexivity.
Defined.

(** [axmp] unified with its arguments: the second typing entry. *)
Lemma unify_bindings_witness :
  ∃ c x toks,
    split "wff ps" = [c; x] ∧ split "wff b" = c :: toks
    ∧ ModusPonens.subs !! x = Some (join " " toks)
    ∧ split (join " " toks) = toks.
Proof.
  apply (unify_bindings Scenario.base ModusPonens.axmp ModusPonens.axmp
           ModusPonens.args [] (drop 1 ModusPonens.lines) ModusPonens.subs
           ltac:(vm_compute; reflexivity) ltac:(vm_compute; reflexivity)
           1 "wps"); reflexivity.
Defined.

(** Modus ponens applied above ['wff c']. *)
Lemma apply_rule_succeeds_iff_witness :
  ∃ trace',
    apply_rule ModusPonens.axmp Kaxiom 7 "ax-mp"
               ("wff c" :: ModusPonens.args, [])
    = inr (["wff c"; "|- b"], trace').
Proof.
  apply (proj2 (apply_rule_succeeds_iff ModusPonens.axmp Kaxiom 7 "ax-mp"
                  ("wff c" :: ModusPonens.args) ["wff c"; "|- b"] [])).
  exists ["wff c"], ModusPonens.args, ModusPonens.subs, ModusPonens.lines.
  split_and!; try (vm_compute; reflexivity).
  intros [|[|i]] h_lbl Hi; simplify_eq/=.
  - exists "|- ph". split; vm_compute; reflexivity.
  - exists "|- ( ph -> ps )". split; vm_compute; reflexivity.
Defined.

(** Type unification of [axmp] with its four arguments. *)
Lemma unify_succeeds_iff_witness :
  ∃ subs trace', unify ModusPonens.axmp ModusPonens.args [] = inr (subs, trace').
Proof.
  apply (proj2 (unify_succeeds_iff Scenario.base ModusPonens.axmp
                  ModusPonens.axmp ModusPonens.args []
                  ltac:(vm_compute; reflexivity) ltac:(simpl; lia))).
  intros [|[|i]] k v e Hkv He; simplify_eq/=.
  - by exists "wff", "ph", ["a"].
  - by exists "wff", "ps", ["b"].
Defined.

(** The axiom ['wid'] is well formed in the system of the constants. *)
Lemma check_accepts_iff_witness :
  ∃ vs, well_formed Scenario.base Scenario.wid vs.
Proof.
  apply (proj1 (check_accepts_iff Scenario.base Scenario.wid)).
  vm_compute. reflexivity.
Defined.

(** Modus ponens on a stack of three expressions. *)
Lemma stack_underflow_iff_witness :
  apply_rule ModusPonens.axmp Kaxiom 1 "ax-mp"
             (["wff a"; "wff b"; "|- a"], [])
  = inl (Raised StackUnderflow).
Proof.
  apply (proj2 (stack_underflow_iff ModusPonens.axmp Kaxiom 1 "ax-mp"
                  ["wff a"; "wff b"; "|- a"] [])).
  simpl. lia.
Defined.

(** The constant ['wff'] after an axiom has been added. *)
Lemma registered_label_refused_witness :
  add_constant "wff"
    (after_calls [AddAxiom "wid" Scenario.wid] Scenario.base)
  = (inl (Raised DuplicateLabel),
     after_calls [AddAxiom "wid" Scenario.wid] Scenario.base).
Proof.
  apply (registered_label_refused Scenario.base "wff"
           [AddAxiom "wid" Scenario.wid]).
  left. vm_compute. reflexivity.
Defined.

(** The axiom ['wid'] added to the system of the constants alone. *)
Lemma add_axiom_stores_witness :
  getitem "wid" (axioms Scenario.with_wid) = inr Scenario.wid.
Proof.
  apply (proj2 (add_axiom_stores Scenario.base Scenario.with_wid "wid"
                  Scenario.wid)).
  vm_compute. reflexivity.
Defined.

(** The theorem ['idi'] added to the system of the constants alone. *)
Lemma add_theorem_accepts_iff_witness :
  add_theorem "idi" Scenario.idi Scenario.base = (inr tt, Scenario.with_idi).
Proof.
  apply (proj2 (add_theorem_accepts_iff Scenario.base Scenario.with_idi
                  "idi" Scenario.idi)).
  split_and!; [vm_compute; reflexivity..| |reflexivity].
  exists [TrPushHyp 1 "idi.1" "|- ph"]. vm_compute. reflexivity.
Defined.

(** The proof of ['idi'] after the axiom ['wid'] has been added. *)
Lemma accepted_proofs_stay_witness :
  _proof_check (snd (run_call (AddAxiom "wid" Scenario.wid) Scenario.base))
               Scenario.idi false
  = inr CTrue.
Proof.
  apply (accepted_proofs_stay (AddAxiom "wid" Scenario.wid) Scenario.base).
  - split; vm_compute; reflexivity.
  - vm_compute. reflexivity.
Defined.

(** The constants after [add_constant('T')] and a refused
    [add_constant('wff')]. *)
Lemma constants_stay_distinct_witness :
  NoDup (constants (after_calls [AddConstant "T"; AddConstant "wff"]
                                Scenario.base)).
Proof.
  apply (constants_stay_distinct (Some Scenario.csts) (Some []) (Some [])
           None Scenario.base [AddConstant "T"; AddConstant "wff"]).
  vm_compute. reflexivity.
Defined.


(** The proof ['wps h idi'] in the system that lacks ['idi']. *)
Lemma interpreter_raises_kinds_witness : Raised UnknownStep ∈ proof_kinds.
Proof.
  apply (interpreter_raises_kinds Scenario.with_wid Scenario.uses_idi false).
  - intros l rule [Hin|Hin]; [|by apply elem_of_nil in Hin].
    apply list_elem_of_singleton in Hin. simplify_eq. split.
    + exists Scenario.base. vm_compute. reflexivity.
    + exists "wff", ["ph"]. split; [reflexivity|].
      intros k (tv & c & Hg & Hs). simpl in Hg.
      case_bool_decide; [|done]. by simplify_eq.
  - done.
  - intros k v [Hin|Hin]; apply list_elem_of_singleton in Hin;
      simplify_eq; vm_compute; done.
  - vm_compute. reflexivity.
Defined.

(** A theorem ['loop'] that cites itself. *)
Lemma init_accepts_self_reference_witness :
  ∃ self,
    __init__ (Some Scenario.csts) (Some [])
             (Some [("loop", cites "loop" "|- ( set = set )")]) None
    = inr self
    ∧ constants self = Scenario.csts ∧ axioms self = []
    ∧ theorems self = [("loop", cites "loop" "|- ( set = set )")].
Proof.
  apply (init_accepts_self_reference Scenario.csts "loop"
           "|- ( set = set )").
  - compute_done.
  - compute_done.
  - apply Forall_forall. compute_done.
  - reflexivity.
Defined.
